(** * Git collaboration monitor: event processing and fan-out

    A shallow embedding of the backend of the real-time collaboration
    monitor: [processor.py] (payload normalisation and conflict detection),
    [redis_client.py] (retry policy and the capped recent-events list) and
    [websocket_manager.py] (connection registry and broadcast).

    Conventions of the embedding.
    - JSON documents are values of [pyval]; JSON numbers are integers (the
      webhook payloads carry no fractional numbers in the fields read here).
    - A Python [str] is a [string] holding its UTF-8 bytes; bytewise
      lexicographic order is then code-point order, which is how Python
      compares strings.
    - Code that can raise returns an [outcome]; code that also mutates state
      runs in the state-and-exception monad [M].
    - Library calls whose result is not determined by the repository
      ([datetime.fromisoformat], the clock, [uuid4], [repr] of containers,
      the JSON codec, the network) are parameters. *)

From Stdlib Require Import ZArith String Ascii List.
From stdpp Require Import base gmap sets list strings sorting pretty.

#[local] Set Warnings "-register-all,-clear-no-such-hyp".
#[local] Open Scope string_scope.
#[local] Open Scope Z_scope.

(* ===================================================================== *)
(** * Python values and exceptions *)
(* ===================================================================== *)

Module Py.

Inductive exn : Type :=
| AttributeError
| TypeError
| KeyError
| ValueError
| IndexError
| IOError (detail : string).

Inductive outcome (A : Type) : Type :=
| Ret (a : A)
| Raise (e : exn).
Arguments Ret {A} a.
Arguments Raise {A} e.

Definition obind {A B} (m : outcome A) (k : A → outcome B) : outcome B :=
  match m with
  | Ret a => k a
  | Raise e => Raise e
  end.

#[global] Instance outcome_ret : MRet outcome := λ A a, Ret a.
#[global] Instance outcome_bind : MBind outcome := λ A B k m, obind m k.

(** What [json.loads] produces. *)
Inductive pyval : Type :=
| PNone
| PBool (b : bool)
| PInt (z : Z)
| PStr (s : string)
| PList (l : list pyval)
| PDict (d : gmap string pyval).

(** [d.get(k, default)] on a dict. *)
Definition dict_get (d : gmap string pyval) (k : string) (dflt : pyval) : pyval :=
  default dflt (d !! k).

(** [v.get(k, default)] on an arbitrary value: only dicts have [get]. *)
Definition py_get (v : pyval) (k : string) (dflt : pyval) : outcome pyval :=
  match v with
  | PDict d => Ret (dict_get d k dflt)
  | _ => Raise AttributeError
  end.

(** Truth value of a Python object. *)
Definition py_truthy (v : pyval) : bool :=
  match v with
  | PNone => false
  | PBool b => b
  | PInt z => negb (z =? 0)
  | PStr s => negb (String.eqb s "")
  | PList l => match l with [] => false | _ => true end
  | PDict d => negb (bool_decide (map_to_list d = []))
  end.

(** [v == "literal"]. *)
Definition py_eq_str (v : pyval) (s : string) : bool :=
  match v with
  | PStr t => String.eqb t s
  | _ => false
  end.

(** A byte that continues a UTF-8 sequence: 10xxxxxx. *)
Definition is_continuation (c : ascii) : bool :=
  let n := nat_of_ascii c in
  (Nat.leb 128 n && Nat.ltb n 192)%bool.

(** [len(s)] counts code points, that is, bytes that start a sequence. *)
Fixpoint str_len (s : string) : nat :=
  match s with
  | EmptyString => 0%nat
  | String c r => if is_continuation c then str_len r else S (str_len r)
  end.

Definition starts_with_continuation (s : string) : bool :=
  match s with
  | EmptyString => false
  | String c _ => is_continuation c
  end.

(** The characters of a string, as Python iterates over it: a byte that
    starts a sequence, followed by its continuation bytes. *)
Fixpoint str_chars (s : string) : list string :=
  match s with
  | EmptyString => []
  | String c r =>
      match str_chars r with
      | hd :: tl =>
          if starts_with_continuation r then String c hd :: tl
          else String c EmptyString :: hd :: tl
      | [] => [String c EmptyString]
      end
  end.

(** [len(v)]. *)
Definition py_len (v : pyval) : outcome nat :=
  match v with
  | PStr s => Ret (str_len s)
  | PList l => Ret (length l)
  | PDict d => Ret (size d)
  | _ => Raise TypeError
  end.

(** [iter(v)]: the elements a [for] loop or [set.update] sees. *)
Definition py_iter (v : pyval) : outcome (list pyval) :=
  match v with
  | PStr s => Ret (PStr <$> str_chars s)
  | PList l => Ret l
  | PDict d => Ret ((λ kv, PStr kv.1) <$> map_to_list d)
  | _ => Raise TypeError
  end.

Definition has_slash (s : string) : bool :=
  existsb (λ c, Ascii.eqb c "/"%char) (list_ascii_of_string s).

(** ["/" in v]. *)
Definition py_contains_slash (v : pyval) : outcome bool :=
  match v with
  | PStr s => Ret (has_slash s)
  | PList l => Ret (existsb (λ x, py_eq_str x "/") l)
  | PDict d => Ret (bool_decide (is_Some (d !! "/")))
  | _ => Raise TypeError
  end.

(** [s.split("/")[-1]]: what follows the last slash. *)
Fixpoint after_last_slash (s acc : string) : string :=
  match s with
  | EmptyString => acc
  | String c r =>
      if Ascii.eqb c "/"%char then after_last_slash r ""
      else after_last_slash r (acc ++ String c EmptyString)
  end.

Definition last_segment (s : string) : string := after_last_slash s "".

(** [ref.split("/")[-1] if "/" in ref else ref]. *)
Definition branch_of_ref (ref : pyval) : outcome pyval :=
  found ← py_contains_slash ref;
  if found : bool then
    match ref with
    | PStr s => Ret (PStr (last_segment s))
    | _ => Raise AttributeError
    end
  else Ret ref.

(** Hashable values may enter a [set]. *)
Definition py_hashable (v : pyval) : bool :=
  match v with
  | PList _ | PDict _ => false
  | _ => true
  end.

Definition num_value (v : pyval) : option Z :=
  match v with
  | PBool b => Some (if b then 1 else 0)
  | PInt z => Some z
  | _ => None
  end.

(** [a == b] on hashable values: [True == 1] and [False == 0]. *)
Definition atom_eq (a b : pyval) : bool :=
  match a, b with
  | PNone, PNone => true
  | PStr s, PStr t => String.eqb s t
  | _, _ =>
      match num_value a, num_value b with
      | Some x, Some y => x =? y
      | _, _ => false
      end
  end.

(** A [set] of hashable values, in insertion order, one representative per
    equality class (the first one inserted). *)
Definition set_add (x : pyval) (s : list pyval) : list pyval :=
  if existsb (atom_eq x) s then s else s ++ [x].

(** [s.update(v)]. *)
Definition set_update (s : list pyval) (v : pyval) : outcome (list pyval) :=
  xs ← py_iter v;
  fold_left (λ acc x,
    s' ← acc;
    if py_hashable x then Ret (set_add x s') else Raise TypeError) xs (Ret s).

(** Order used by [sorted]: strings by code point, numbers by value. *)
Definition str_le (a b : string) : Prop := String.leb a b = true.

#[global] Instance str_le_dec a b : Decision (str_le a b).
Proof. unfold str_le. apply _. Defined.

Definition atom_le (a b : pyval) : Prop :=
  match a, b with
  | PStr s, PStr t => str_le s t
  | _, _ =>
      match num_value a, num_value b with
      | Some x, Some y => x ≤ y
      | _, _ => True
      end
  end.

#[global] Instance atom_le_dec a b : Decision (atom_le a b).
Proof.
  unfold atom_le. destruct a, b; simpl; try apply _;
    repeat match goal with |- context [if ?b then _ else _] => destruct b end;
    apply _.
Defined.

Definition is_str (v : pyval) : bool :=
  match v with PStr _ => true | _ => false end.

Definition is_num (v : pyval) : bool :=
  match num_value v with Some _ => true | None => false end.

(** [sorted(s)] for a set [s]: the elements are pairwise different, so the
    result is determined whenever every comparison is defined; a list of two
    or more elements that mixes strings, numbers or [None] makes a
    comparison raise. *)
Definition py_sorted (s : list pyval) : outcome (list pyval) :=
  match s with
  | [] | [_] => Ret s
  | _ =>
      if (forallb is_str s || forallb is_num s)%bool
      then Ret (merge_sort atom_le s)
      else Raise TypeError
  end.

(** [sorted(s)] for a set of strings. *)
Definition sorted_strs (s : gset string) : list string :=
  merge_sort str_le (elements s).

Section Format.
(** [repr] of a list or a dict, as an f-string renders it. *)
Variable repr_container : pyval → string.

(** [f"{v}"]. *)
Definition py_str (v : pyval) : string :=
  match v with
  | PNone => "None"
  | PBool true => "True"
  | PBool false => "False"
  | PInt z => pretty z
  | PStr s => s
  | PList _ | PDict _ => repr_container v
  end.
End Format.

End Py.

(* ===================================================================== *)
(** * models.py *)
(* ===================================================================== *)

Module Models.

(** [ConflictAlert]: the alert dictionary built by [detect_conflicts]. *)
Record ConflictAlert := {
  type : string;
  severity : string;
  message : string;
  branches : list string;
  conflicting_files : list string;
}.

(** The keys of an event dictionary that [detect_conflicts] reads, at the
    types [GitEvent] declares for them; [None] is a missing key. *)
Record GitEvent := {
  event_type : option string;
  branch : option string;
  files_changed : option (list string);
  timestamp : option string;
}.

(** [StatsResponse]: the dictionary built by [get_stats]. *)
Record Stats := {
  total_events_today : nat;
  active_contributors : nat;
  branches_modified : nat;
  conflict_alerts : nat;
}.

(** A [datetime]: with or without [tzinfo], and its position on the time
    line in microseconds (the UTC instant when it carries a [tzinfo]). *)
Record datetime := {
  tz_aware : bool;
  micros : Z;
}.

End Models.

(* ===================================================================== *)
(** * processor.py *)
(* ===================================================================== *)

Module Processor.
Import Py Models.

Definition empty_dict : pyval := PDict ∅.

Section Normalizer.
Variable repr_container : pyval → string.

Abbreviation fmt := (py_str repr_container).

Definition generate_title (event_type : string) (payload : gmap string pyval)
  : outcome string :=
  if String.eqb event_type "push" then
    pusher ← py_get (dict_get payload "pusher" empty_dict) "name" (PStr "someone");
    let commits := dict_get payload "commits" (PList []) in
    let ref := dict_get payload "ref" (PStr "") in
    branch ← branch_of_ref ref;
    count ← py_len commits;
    let noun := if Nat.eqb count 1 then "commit" else "commits" in
    Ret (fmt pusher ++ " pushed " ++ pretty count ++ " " ++ noun ++ " to " ++ fmt branch)
  else if String.eqb event_type "pull_request" then
    let pr := dict_get payload "pull_request" empty_dict in
    let action := dict_get payload "action" (PStr "updated") in
    user_obj ← py_get pr "user" empty_dict;
    user ← py_get user_obj "login" (PStr "someone");
    number ← py_get pr "number" (PStr "?");
    title ← py_get pr "title" (PStr "");
    merged ← py_get pr "merged" (PBool false);
    if (py_eq_str action "closed" && py_truthy merged)%bool then
      base_obj ← py_get pr "base" empty_dict;
      base ← py_get base_obj "ref" (PStr "main");
      Ret (fmt user ++ " merged pull request #" ++ fmt number ++ " into " ++ fmt base)
    else
      Ret (fmt user ++ " " ++ fmt action ++ " PR #" ++ fmt number ++ ": " ++ fmt title)
  else if String.eqb event_type "create" then
    let ref_type := dict_get payload "ref_type" (PStr "branch") in
    let ref_name := dict_get payload "ref" (PStr "unknown") in
    sender ← py_get (dict_get payload "sender" empty_dict) "login" (PStr "someone");
    Ret (fmt sender ++ " created " ++ fmt ref_type ++ " " ++ fmt ref_name)
  else if String.eqb event_type "delete" then
    let ref_type := dict_get payload "ref_type" (PStr "branch") in
    let ref_name := dict_get payload "ref" (PStr "unknown") in
    sender ← py_get (dict_get payload "sender" empty_dict) "login" (PStr "someone");
    Ret (fmt sender ++ " deleted " ++ fmt ref_type ++ " " ++ fmt ref_name)
  else if String.eqb event_type "issues" then
    let action := dict_get payload "action" (PStr "updated") in
    let issue := dict_get payload "issue" empty_dict in
    sender ← py_get (dict_get payload "sender" empty_dict) "login" (PStr "someone");
    number ← py_get issue "number" (PStr "?");
    title ← py_get issue "title" (PStr "");
    Ret (fmt sender ++ " " ++ fmt action ++ " issue #" ++ fmt number ++ ": " ++ fmt title)
  else
    sender ← py_get (dict_get payload "sender" empty_dict) "login" (PStr "someone");
    Ret (fmt sender ++ " triggered " ++ event_type ++ " event").

(** One turn of the loop of [_extract_files_changed]. *)
Definition add_commit_files (files : list pyval) (commit : pyval)
  : outcome (list pyval) :=
  added ← py_get commit "added" (PList []);
  files ← set_update files added;
  modified ← py_get commit "modified" (PList []);
  files ← set_update files modified;
  removed ← py_get commit "removed" (PList []);
  set_update files removed.

Fixpoint collect_files (files : list pyval) (commits : list pyval)
  : outcome (list pyval) :=
  match commits with
  | [] => Ret files
  | commit :: rest =>
      files ← add_commit_files files commit;
      collect_files files rest
  end.

Definition _extract_files_changed (payload : gmap string pyval)
  : outcome (list pyval) :=
  commits ← py_iter (dict_get payload "commits" (PList []));
  files ← collect_files [] commits;
  py_sorted files.

(** The event dictionary of [parse_event].  [uid] is the fresh [uuid4]
    and [now] the clock reading in ISO format, both taken at call time. *)
Definition parse_event (uid now : string) (event_type : string)
    (payload : gmap string pyval) : outcome (gmap string pyval) :=
  let sender := dict_get payload "sender" empty_dict in
  let repo := dict_get payload "repository" empty_dict in
  actor ← py_get sender "login" (PStr "unknown");
  actor_avatar ← py_get sender "avatar_url" (PStr "");
  repository ← py_get repo "full_name" (PStr "unknown/unknown");
  title ← generate_title event_type payload;
  let event : gmap string pyval :=
    {[ "id" := PStr uid;
       "timestamp" := PStr now;
       "event_type" := PStr event_type;
       "actor" := actor;
       "actor_avatar" := actor_avatar;
       "repository" := repository;
       "branch" := PStr "";
       "title" := PStr title;
       "details" := PDict ∅;
       "files_changed" := PList [];
       "alert" := PNone ]} in
  if String.eqb event_type "push" then
    let ref := dict_get payload "ref" (PStr "") in
    branch ← branch_of_ref ref;
    let event := <["branch" := branch]> event in
    files ← _extract_files_changed payload;
    let event := <["files_changed" := PList files]> event in
    count ← py_len (dict_get payload "commits" (PList []));
    Ret (<["details" := PDict
            {[ "commits" := PInt (Z.of_nat count);
               "before" := dict_get payload "before" (PStr "");
               "after" := dict_get payload "after" (PStr "");
               "compare_url" := dict_get payload "compare" (PStr "") ]}]> event)
  else if String.eqb event_type "pull_request" then
    let pr := dict_get payload "pull_request" empty_dict in
    let action := dict_get payload "action" (PStr "") in
    merged ← py_get pr "merged" (PBool false);
    let event :=
      <["event_type" :=
          PStr (if (py_eq_str action "closed" && py_truthy merged)%bool
                then "merge" else "pull_request")]> event in
    head ← py_get pr "head" empty_dict;
    branch ← py_get head "ref" (PStr "");
    let event := <["branch" := branch]> event in
    pr_number ← py_get pr "number" PNone;
    pr_title ← py_get pr "title" (PStr "");
    head' ← py_get pr "head" empty_dict;
    source_branch ← py_get head' "ref" (PStr "");
    base ← py_get pr "base" empty_dict;
    target_branch ← py_get base "ref" (PStr "");
    html_url ← py_get pr "html_url" (PStr "");
    Ret (<["details" := PDict
            {[ "action" := action;
               "pr_number" := pr_number;
               "pr_title" := pr_title;
               "source_branch" := source_branch;
               "target_branch" := target_branch;
               "merged" := merged;
               "html_url" := html_url ]}]> event)
  else if String.eqb event_type "create" then
    let event := <["event_type" := PStr "branch_create"]> event in
    let event := <["branch" := dict_get payload "ref" (PStr "")]> event in
    Ret (<["details" := PDict
            {[ "ref_type" := dict_get payload "ref_type" (PStr "branch") ]}]> event)
  else if String.eqb event_type "delete" then
    let event := <["event_type" := PStr "branch_delete"]> event in
    let event := <["branch" := dict_get payload "ref" (PStr "")]> event in
    Ret (<["details" := PDict
            {[ "ref_type" := dict_get payload "ref_type" (PStr "branch") ]}]> event)
  else if String.eqb event_type "issues" then
    let issue := dict_get payload "issue" empty_dict in
    issue_number ← py_get issue "number" PNone;
    issue_title ← py_get issue "title" (PStr "");
    html_url ← py_get issue "html_url" (PStr "");
    Ret (<["details" := PDict
            {[ "action" := dict_get payload "action" (PStr "");
               "issue_number" := issue_number;
               "issue_title" := issue_title;
               "html_url" := html_url ]}]> event)
  else Ret event.
End Normalizer.

(** *** Vocabulary for the statements about normalisation *)

Definition is_dict (v : pyval) : bool :=
  match v with PDict _ => true | _ => false end.

(** Key [k] is missing from [d], or its value satisfies [p]. *)
Definition absent_or (p : pyval → bool) (d : gmap string pyval) (k : string)
  : bool :=
  match d !! k with
  | Some v => p v
  | None => true
  end.

Definition is_list_of (p : pyval → bool) (v : pyval) : bool :=
  match v with PList l => forallb p l | _ => false end.

Definition dict_where (p : gmap string pyval → bool) (v : pyval) : bool :=
  match v with PDict d => p d | _ => false end.

(** A commit object whose file lists, where present, are lists of
    strings. *)
Definition commit_shape : pyval → bool :=
  dict_where (λ c,
    absent_or (is_list_of is_str) c "added"
    && absent_or (is_list_of is_str) c "modified"
    && absent_or (is_list_of is_str) c "removed").

(** A pull-request object whose [user], [head] and [base], where present,
    are objects. *)
Definition pull_request_shape : pyval → bool :=
  dict_where (λ pr,
    absent_or is_dict pr "user" && absent_or is_dict pr "head"
    && absent_or is_dict pr "base").

(** The part of a push payload that the title reads. *)
Definition push_title_shape (payload : gmap string pyval) : bool :=
  absent_or is_dict payload "pusher" && absent_or is_str payload "ref"
  && absent_or (is_list_of (λ _, true)) payload "commits".

(** Every field that [parse_event] reads for this kind of event is missing
    or has the JSON type that the webhook schema gives it. *)
Definition payload_shape (event_type : string) (payload : gmap string pyval)
  : bool :=
  absent_or is_dict payload "sender" && absent_or is_dict payload "repository"
  && (if String.eqb event_type "push" then
        absent_or is_dict payload "pusher" && absent_or is_str payload "ref"
        && absent_or (is_list_of commit_shape) payload "commits"
      else if String.eqb event_type "pull_request" then
        absent_or pull_request_shape payload "pull_request"
      else if String.eqb event_type "issues" then
        absent_or is_dict payload "issue"
      else true).

(** [payload[k1][k2]], when both keys are there. *)
Definition nested (payload : gmap string pyval) (k1 k2 : string)
  : option pyval :=
  match payload !! k1 with
  | Some (PDict d) => d !! k2
  | _ => None
  end.

(** The payload field that the event's branch is read from. *)
Definition branch_field (event_type : string) (payload : gmap string pyval)
  : option pyval :=
  if (String.eqb event_type "push" || String.eqb event_type "create"
      || String.eqb event_type "delete")%bool
  then payload !! "ref"
  else if String.eqb event_type "pull_request" then
    match payload !! "pull_request" with
    | Some (PDict pr) => nested pr "head" "ref"
    | _ => None
    end
  else None.

(** The number of commits that a push payload carries. *)
Definition commit_count (payload : gmap string pyval) : nat :=
  match payload !! "commits" with
  | Some (PList l) => length l
  | _ => 0%nat
  end.

(** The branch of a push payload: what follows the last slash of the
    ref. *)
Definition push_branch (payload : gmap string pyval) : string :=
  match payload !! "ref" with
  | Some (PStr s) => last_segment s
  | _ => ""
  end.

(** A set of strings: only strings, each once. *)
Definition str_set (s : list pyval) : Prop :=
  forallb is_str s = true ∧ NoDup s.

(** The paths that a commit lists under [key]. *)
Definition listed (commit : pyval) (key : string) : list pyval :=
  match commit with
  | PDict c =>
      match c !! key with
      | Some (PList l) => l
      | _ => []
      end
  | _ => []
  end.

(** The paths that a payload lists in its commits: added, modified and
    removed, commit after commit. *)
Definition commit_paths (commit : pyval) : list pyval :=
  listed commit "added" ++ listed commit "modified" ++ listed commit "removed".

Definition pushed_paths (payload : gmap string pyval) : list pyval :=
  match payload !! "commits" with
  | Some (PList commits) => concat (commit_paths <$> commits)
  | _ => []
  end.

(** The [pull_request] object of a payload, empty when it is missing. *)
Definition pr_of (payload : gmap string pyval) : gmap string pyval :=
  match payload !! "pull_request" with
  | Some (PDict pr) => pr
  | _ => ∅
  end.

(** Whether a pull-request payload says closed and merged. *)
Definition closed_and_merged (payload : gmap string pyval) : bool :=
  (py_eq_str (dict_get payload "action" (PStr "")) "closed"
   && py_truthy (default (PBool false) (nested payload "pull_request" "merged")))%bool.

(** The five kinds of event that [parse_event] treats specially. *)
Definition known_kind (event_type : string) : bool :=
  (String.eqb event_type "push" || String.eqb event_type "pull_request"
   || String.eqb event_type "create" || String.eqb event_type "delete"
   || String.eqb event_type "issues")%bool.

Section Detector.
(** [datetime.fromisoformat]; [None] stands for its [ValueError]. *)
Variable fromisoformat : string → option datetime.
(** [datetime.now(timezone.utc)], in microseconds. *)
Variable now : Z.

(** [timedelta(minutes=10)], in microseconds. *)
Definition window : Z := 10 * 60 * 1000000.

(** [a - b] on datetimes: mixing one that has a [tzinfo] with one that
    has none raises. *)
Definition dt_sub (a b : datetime) : outcome Z :=
  if Bool.eqb (tz_aware a) (tz_aware b) then Ret (micros a - micros b)
  else Raise TypeError.

(** [ev.get("event_type") == "push"]. *)
Definition is_push (ev : GitEvent) : bool :=
  match event_type ev with
  | Some t => String.eqb t "push"
  | None => false
  end.

(** [datetime.fromisoformat(ev["timestamp"])] under
    [except (ValueError, KeyError)]. *)
Definition parse_ts (ev : GitEvent) : option datetime :=
  timestamp ev ≫= fromisoformat.

(** The [for ev in recent_events] loop, threading [conflicting_files]
    and [conflict_branches]. *)
Fixpoint scan (new_files : gset string) (new_branch : string)
    (new_ts : datetime) (recent_events : list GitEvent)
    (conflicting_files : list string) (conflict_branches : gset string)
  : outcome (list string * gset string) :=
  match recent_events with
  | [] => Ret (conflicting_files, conflict_branches)
  | ev :: rest =>
      let continue :=
        scan new_files new_branch new_ts rest conflicting_files conflict_branches in
      if negb (is_push ev) then continue else
      let ev_branch := default "" (branch ev) in
      if (String.eqb ev_branch new_branch || String.eqb ev_branch "")%bool
      then continue else
      match parse_ts ev with
      | None => continue
      | Some ev_ts =>
          d ← dt_sub new_ts ev_ts;
          if window <? d then continue else
          let overlap : gset string :=
            new_files ∩ list_to_set (default [] (files_changed ev)) in
          if decide (overlap = ∅) then continue else
          scan new_files new_branch new_ts rest
            (conflicting_files ++ elements overlap)
            ({[ ev_branch ]} ∪ conflict_branches)
      end
  end.

(** [l[0]]. *)
Definition index0 (l : list string) : outcome string :=
  match l with
  | x :: _ => Ret x
  | [] => Raise IndexError
  end.

(** [new_ts]: the timestamp of the new event, or the clock when it is
    missing or does not parse. *)
Definition new_timestamp (new_event : GitEvent) : datetime :=
  default {| tz_aware := true; micros := now |} (parse_ts new_event).

Definition detect_conflicts (new_event : GitEvent)
    (recent_events : list GitEvent) : outcome (option ConflictAlert) :=
  if negb (is_push new_event) then Ret None else
  let new_files : gset string :=
    list_to_set (default [] (files_changed new_event)) in
  if decide (new_files = ∅) then Ret None else
  let new_branch := default "" (branch new_event) in
  let new_ts := new_timestamp new_event in
  found ← scan new_files new_branch new_ts recent_events [] ∅;
  let conflicting_files := found.1 in
  let conflict_branches := found.2 in
  match conflicting_files with
  | [] => Ret None
  | _ =>
      let unique_files := sorted_strs (list_to_set conflicting_files) in
      let branches_list := sorted_strs conflict_branches in
      let severity :=
        if (3 <=? length unique_files)%nat then "high" else "medium" in
      b0 ← index0 branches_list;
      f0 ← index0 unique_files;
      Ret (Some {|
        type := "conflict_risk";
        severity := severity;
        message :=
          "Branch '" ++ new_branch ++ "' and '" ++ b0 ++ "' both modified '"
          ++ f0 ++ "'"
          ++ (if (1 <? length unique_files)%nat
              then " and " ++ pretty (length unique_files - 1)%nat
                   ++ " more file(s)"
              else "");
        branches := new_branch :: branches_list;
        conflicting_files := unique_files |})
  end.

(** *** Vocabulary for the statements about [detect_conflicts] *)

(** [ev] is a candidate the loop does not skip: a push on a branch [b]
    that is not empty and not the new branch, whose timestamp parses to
    [ts], no more than the window before [new_ts]. *)
Definition candidate (new_branch : string) (new_ts : datetime)
    (ev : GitEvent) (b : string) (ts : datetime) : Prop :=
  is_push ev = true ∧ branch ev = Some b ∧ b ≠ "" ∧ b ≠ new_branch
  ∧ parse_ts ev = Some ts ∧ micros new_ts - micros ts ≤ window.

(** Some candidate on branch [b] among [recent_events] changed file
    [f], which is also one of [new_files]. *)
Definition hit (new_files : gset string) (new_branch : string)
    (new_ts : datetime) (recent_events : list GitEvent) (b f : string)
  : Prop :=
  ∃ ev ts,
    ev ∈ recent_events ∧ candidate new_branch new_ts ev b ts
    ∧ f ∈ new_files ∧ f ∈ default [] (files_changed ev).

(** Branch [b] and file [f] are in conflict with the new event: some
    candidate on [b] in the recent events changed [f], and so did the new
    event. *)
Definition conflict (new_event : GitEvent) (recent_events : list GitEvent)
    (b f : string) : Prop :=
  ∃ ev ts,
    ev ∈ recent_events
    ∧ candidate (default "" (branch new_event)) (new_timestamp new_event) ev b ts
    ∧ f ∈ default [] (files_changed new_event)
    ∧ f ∈ default [] (files_changed ev).

(** The set of the files an event changed. *)
Definition files_of (ev : GitEvent) : gset string :=
  list_to_set (default [] (files_changed ev)).

(** [ev] passes the tests on kind and branch, and its timestamp parses to
    a datetime of the other kind than [new_ts] (one has a [tzinfo], the
    other has none). *)
Definition tz_mismatch (new_branch : string) (new_ts : datetime)
    (ev : GitEvent) : Prop :=
  is_push ev = true
  ∧ default "" (branch ev) ≠ new_branch
  ∧ default "" (branch ev) ≠ ""
  ∧ ∃ ts, parse_ts ev = Some ts ∧ tz_aware ts ≠ tz_aware new_ts.

(** [ev] is skipped by the loop, for one of its five reasons: not a push;
    on the new branch or on no branch; no timestamp that parses; older
    than the window; no file in common with [new_files]. *)
Definition skipped (new_files : gset string) (new_branch : string)
    (new_ts : datetime) (ev : GitEvent) : Prop :=
  is_push ev = false
  ∨ default "" (branch ev) = new_branch
  ∨ default "" (branch ev) = ""
  ∨ parse_ts ev = None
  ∨ ∃ ts, parse_ts ev = Some ts ∧ tz_aware ts = tz_aware new_ts
          ∧ (window < micros new_ts - micros ts
             ∨ new_files ∩ list_to_set (default [] (files_changed ev)) = ∅).

(** The alert for the new branch, given the set of files and the set of
    branches in conflict. *)
Definition alert_of (new_branch : string) (files others : gset string)
  : ConflictAlert :=
  let unique_files := sorted_strs files in
  {| type := "conflict_risk";
     severity := if (3 <=? length unique_files)%nat then "high" else "medium";
     message :=
       "Branch '" ++ new_branch ++ "' and '"
       ++ hd "" (sorted_strs others) ++ "' both modified '"
       ++ hd "" unique_files ++ "'"
       ++ (if (1 <? length unique_files)%nat
           then " and " ++ pretty (length unique_files - 1)%nat
                ++ " more file(s)"
           else "");
     branches := new_branch :: sorted_strs others;
     conflicting_files := unique_files |}.

(** The reading of the window that the specification words give: the
    candidate is not later than the new event. *)
Definition not_later (new_event ev : GitEvent) : Prop :=
  ∃ ts, parse_ts ev = Some ts
        ∧ 0 ≤ micros (new_timestamp new_event) - micros ts.
End Detector.

(** ** A reader for the timestamps the service writes

    [datetime.now(timezone.utc).isoformat()] prints
    [YYYY-MM-DDTHH:MM:SS+00:00], with [.ffffff] after the seconds when the
    microseconds are not zero.  [fromisoformat_utc] reads exactly these
    strings, and the same without the offset (a datetime without [tzinfo]);
    it is the instance of [fromisoformat] used in the examples. *)

Definition digit (c : ascii) : option Z :=
  let n := Z.of_nat (nat_of_ascii c) in
  if ((48 <=? n) && (n <=? 57))%bool then Some (n - 48) else None.

Fixpoint digits (cs : list ascii) (acc : Z) : option Z :=
  match cs with
  | [] => Some acc
  | c :: r => d ← digit c; digits r (10 * acc + d)
  end.

Definition number_at (s : string) (pos len : nat) : option Z :=
  let part := substring pos len s in
  if Nat.eqb (String.length part) len
  then digits (list_ascii_of_string part) 0 else None.

Definition char_at_is (s : string) (pos : nat) (c : ascii) : bool :=
  match String.get pos s with
  | Some c' => Ascii.eqb c c'
  | None => false
  end.

Definition is_leap (y : Z) : bool :=
  ((y mod 4 =? 0) && (negb (y mod 100 =? 0) || (y mod 400 =? 0)))%bool.

Definition days_in_month (y m : Z) : Z :=
  if m =? 2 then (if is_leap y then 29 else 28)
  else if ((m =? 4) || (m =? 6) || (m =? 9) || (m =? 11))%bool then 30
  else 31.

(** Days from 1970-01-01 to the given civil date. *)
Definition days_from_civil (y m d : Z) : Z :=
  let y' := if m <=? 2 then y - 1 else y in
  let era := y' / 400 in
  let yoe := y' - era * 400 in
  let doy := (153 * (if 2 <? m then m - 3 else m + 9) + 2) / 5 + d - 1 in
  let doe := yoe * 365 + yoe / 4 - yoe / 100 + doy in
  era * 146097 + doe - 719468.

Definition fromisoformat_utc (s : string) : option datetime :=
  year ← number_at s 0 4;
  month ← number_at s 5 2;
  day ← number_at s 8 2;
  hour ← number_at s 11 2;
  minute ← number_at s 14 2;
  second ← number_at s 17 2;
  let has_fraction := char_at_is s 19 "."%char in
  fraction ← (if has_fraction then number_at s 20 6 else Some 0);
  let tail_pos := if has_fraction then 26%nat else 19%nat in
  let tail := substring tail_pos (String.length s - tail_pos) s in
  aware ← (if String.eqb tail "" then Some false
           else if String.eqb tail "+00:00" then Some true else None);
  if (char_at_is s 4 "-"%char && char_at_is s 7 "-"%char
      && char_at_is s 10 "T"%char
      && char_at_is s 13 ":"%char && char_at_is s 16 ":"%char
      && (1 <=? year) && (1 <=? month) && (month <=? 12)
      && (1 <=? day) && (day <=? days_in_month year month)
      && (hour <? 24) && (minute <? 60) && (second <? 60))%bool
  then Some {|
    tz_aware := aware;
    micros :=
      (((days_from_civil year month day * 24 + hour) * 60 + minute) * 60
       + second) * 1000000 + fraction |}
  else None.

End Processor.

(* ===================================================================== *)
(** * State and exceptions *)
(* ===================================================================== *)

Module Eff.
Import Py.

(** A computation over a state [S] that returns or raises. *)
Definition M (S A : Type) : Type := S → outcome A * S.

Definition ret {S A} (a : A) : M S A := λ w, (Ret a, w).

Definition raise {S A} (e : exn) : M S A := λ w, (Raise e, w).

Definition bind {S A B} (m : M S A) (k : A → M S B) : M S B :=
  λ w, match m w with
       | (Ret a, w') => k a w'
       | (Raise e, w') => (Raise e, w')
       end.

(** [try: body / except Exception: handler]. *)
Definition try_except {S A} (body : M S A) (handler : exn → M S A) : M S A :=
  λ w, match body w with
       | (Ret a, w') => (Ret a, w')
       | (Raise e, w') => handler e w'
       end.

Definition modify {S} (f : S → S) : M S unit := λ w, (Ret tt, f w).

Definition gets {S A} (f : S → A) : M S A := λ w, (Ret (f w), w).

Definition lift {S A} (o : outcome A) : M S A := λ w, (o, w).

End Eff.

Notation "'do' x ← m ; k" := (Eff.bind m (λ x, k))
  (at level 10, x name, m at level 100, k at level 200, only parsing).

(* ===================================================================== *)
(** * websocket_manager.py *)
(* ===================================================================== *)

Module WebsocketManager.
Import Py Eff.

(** A [WebSocket] object, by identity. *)
Definition WebSocket : Type := nat.

(** What is handed to a connection: [send_json(event)] or
    [send_text(message)]. *)
Inductive frame : Type :=
| JsonFrame (event : gmap string pyval)
| TextFrame (message : string).

(** One call of [send_json] or [send_text]: the connection, the frame and
    whether the call returned (the frame was delivered) or raised. *)
Record attempt := {
  to : WebSocket;
  payload : frame;
  delivered : bool;
}.

(** The manager's state together with the record of all sends. *)
Record World := {
  _active_connections : gset WebSocket;
  wire : list attempt;
}.

Definition attempts_on (ws : WebSocket) (log : list attempt) : nat :=
  length (filter (λ a, to a = ws) log).

Section Manager.
(** The network: whether [accept] succeeds on a connection, and whether
    the [k]-th send on a connection succeeds. *)
Variable handshake : WebSocket → bool.
Variable link : WebSocket → nat → bool.

Definition accept (ws : WebSocket) : M World unit :=
  if handshake ws then ret tt else raise (IOError "accept").

Definition send (ws : WebSocket) (f : frame) : M World unit :=
  λ w,
    let ok := link ws (attempts_on ws (wire w)) in
    let w' := {| _active_connections := _active_connections w;
                 wire := (wire w ++ [{| to := ws; payload := f; delivered := ok |}])%list |} in
    (if ok then Ret tt else Raise (IOError "send"), w').

Definition send_json (ws : WebSocket) (event : gmap string pyval) : M World unit :=
  send ws (JsonFrame event).

Definition send_text (ws : WebSocket) (message : string) : M World unit :=
  send ws (TextFrame message).

Definition add (ws : WebSocket) : M World unit :=
  modify (λ w, {| _active_connections := {[ ws ]} ∪ _active_connections w;
                  wire := wire w |}).

Definition discard (ws : WebSocket) : M World unit :=
  modify (λ w, {| _active_connections := _active_connections w ∖ {[ ws ]};
                  wire := wire w |}).

Definition active_count (w : World) : nat := size (_active_connections w).

(** How a loop body ends. *)
Inductive flow : Type := Next | Break.

(** [for event in events: try: send_json(event) / except: break]. *)
Fixpoint seed (websocket : WebSocket) (events : list (gmap string pyval))
  : M World unit :=
  match events with
  | [] => ret tt
  | event :: rest =>
      do f ← try_except (do _ ← send_json websocket event; ret Next)
                        (λ _, ret Break);
      match f with
      | Next => seed websocket rest
      | Break => ret tt
      end
  end.

(** [recent_events] is [None] when the argument is omitted. *)
Definition connect (websocket : WebSocket)
    (recent_events : option (list (gmap string pyval))) : M World unit :=
  do _ ← accept websocket;
  do _ ← add websocket;
  match recent_events with
  | Some ((_ :: _) as events) => seed websocket (take 10 events)
  | _ => ret tt
  end.

Definition disconnect (websocket : WebSocket) : M World unit :=
  discard websocket.

(** The first loop of [broadcast], threading [dead]. *)
Fixpoint deliver (message : string) (conns : list WebSocket)
    (dead : list WebSocket) : M World (list WebSocket) :=
  match conns with
  | [] => ret dead
  | ws :: rest =>
      do dead ← try_except (do _ ← send_text ws message; ret dead)
                           (λ _, ret (dead ++ [ws])%list);
      deliver message rest dead
  end.

(** The second loop of [broadcast]. *)
Fixpoint prune (dead : list WebSocket) : M World unit :=
  match dead with
  | [] => ret tt
  | ws :: rest => do _ ← discard ws; prune rest
  end.

Definition broadcast (message : string) : M World unit :=
  do conns ← gets (λ w, elements (_active_connections w));
  do dead ← deliver message conns [];
  prune dead.

(** *** Vocabulary for the statements about the manager *)

(** What the network answers to the next send on [ws]. *)
Definition next_send (w : World) (ws : WebSocket) : bool :=
  link ws (attempts_on ws (wire w)).

(** The record of the next send of [f] on [ws]. *)
Definition sent_to (w : World) (f : frame) (ws : WebSocket) : attempt :=
  {| to := ws; payload := f; delivered := next_send w ws |}.

(** The world after the sends [sent]. *)
Definition extend (w : World) (sent : list attempt) : World :=
  {| _active_connections := _active_connections w;
     wire := (wire w ++ sent)%list |}.
End Manager.

End WebsocketManager.

(* ===================================================================== *)
(** * redis_client.py *)
(* ===================================================================== *)

Module RedisClient.
Import Py Models Eff.

Definition CHANNEL_NAME : string := "git-events".
Definition RECENT_EVENTS_KEY : string := "recent-events".
Definition MAX_RECENT_EVENTS : Z := 100.

(** ** The Redis server, as far as the client uses it *)

(** The lists stored under their keys (head first) and the messages
    published so far, oldest first, each with its channel. *)
Record Redis := {
  lists : gmap string (list string);
  published : list (string * string);
}.

(** What can go wrong with one round trip to the server: the request is
    lost (nothing is applied), or the reply is lost (the commands were
    applied, the client sees an error all the same). *)
Inductive fault : Type :=
| RequestLost
| ReplyLost.

(** The server, the faults that the next round trips will meet (an empty
    script means no more faults), the wall clock in microseconds, and the
    log of the delays slept so far, oldest first. *)
Record World := {
  server : Redis;
  faults : list (option fault);
  clock : Z;
  slept : list Z;
}.

Definition list_at (r : Redis) (key : string) : list string :=
  default [] (lists r !! key).

(** The elements of [l] from index [start] to index [stop], both
    included, with the conventions of [LRANGE] and [LTRIM]: a negative
    index counts from the end of the list, an index past the end stands
    for the last element. *)
Definition redis_range (l : list string) (start stop : Z) : list string :=
  let llen := Z.of_nat (length l) in
  let start := if start <? 0 then llen + start else start in
  let stop := if stop <? 0 then llen + stop else stop in
  let start := if start <? 0 then 0 else start in
  if ((stop <? start) || (llen <=? start))%bool then []
  else
    let stop := if llen <=? stop then llen - 1 else stop in
    take (Z.to_nat (stop - start + 1)) (drop (Z.to_nat start) l).

Inductive command : Type :=
| PUBLISH (channel message : string)
| LPUSH (key value : string)
| LTRIM (key : string) (start stop : Z).

Definition apply_command (r : Redis) (c : command) : Redis :=
  match c with
  | PUBLISH channel message =>
      {| lists := lists r; published := (published r ++ [(channel, message)])%list |}
  | LPUSH key value =>
      {| lists := <[key := value :: list_at r key]> (lists r);
         published := published r |}
  | LTRIM key start stop =>
      {| lists := <[key := redis_range (list_at r key) start stop]> (lists r);
         published := published r |}
  end.

Definition with_server (w : World) (r : Redis) (fs : list (option fault)) : World :=
  {| server := r; faults := fs; clock := clock w; slept := slept w |}.

(** One round trip: the next entry of the fault script decides whether the
    commands are applied and whether the client sees the reply. *)
Definition round_trip {A} (update : Redis → Redis) (reply : Redis → A)
  : M World A :=
  λ w,
    match faults w with
    | Some RequestLost :: fs =>
        (Raise (IOError "connection"), with_server w (server w) fs)
    | Some ReplyLost :: fs =>
        (Raise (IOError "connection"), with_server w (update (server w)) fs)
    | None :: fs =>
        (Ret (reply (server w)), with_server w (update (server w)) fs)
    | [] =>
        (Ret (reply (server w)), with_server w (update (server w)) [])
    end.

(** [await pipe.execute()] for a pipeline holding [commands]. *)
Definition execute (commands : list command) : M World unit :=
  round_trip (λ r, fold_left apply_command commands r) (λ _, tt).

(** [await r.lrange(key, start, stop)]. *)
Definition lrange (key : string) (start stop : Z) : M World (list string) :=
  round_trip (λ r, r) (λ r, redis_range (list_at r key) start stop).

(** The world after [delay] microseconds of sleep. *)
Definition pause (delay : Z) (w : World) : World :=
  {| server := server w; faults := faults w;
     clock := clock w + delay;
     slept := (slept w ++ [delay])%list |}.

(** [await asyncio.sleep(delay)], [delay] in microseconds. *)
Definition sleep (delay : Z) : M World unit := modify (pause delay).

(** ** The client *)

(** The [for attempt in range(retries)] loop of [_retry], threading
    [last_exc]; [raise None] is a [TypeError]. *)
Fixpoint retry_loop {A} (coro_factory : M World A) (retries : nat) (delay : Z)
    (attempts : list nat) (last_exc : option exn) : M World A :=
  match attempts with
  | [] =>
      match last_exc with
      | Some exc => raise exc
      | None => raise TypeError
      end
  | attempt :: rest =>
      do r ← try_except (do a ← coro_factory; ret (inl a))
                        (λ exc, ret (inr exc));
      match r with
      | inl a => ret a
      | inr exc =>
          do _ ← (if Z.of_nat attempt <? Z.of_nat retries - 1
                  then sleep delay else ret tt);
          retry_loop coro_factory retries delay rest (Some exc)
      end
  end.

Definition _retry {A} (coro_factory : M World A) (retries : nat) (delay : Z)
  : M World A :=
  retry_loop coro_factory retries delay (seq 0 retries) None.

(** The defaults [retries: int = 3] and [delay: float = 1.0] (seconds). *)
Definition default_retries : nat := 3.
Definition default_delay : Z := 1000000.

(** [a >= b] on datetimes. *)
Definition dt_ge (a b : datetime) : outcome bool :=
  if Bool.eqb (tz_aware a) (tz_aware b) then Ret (micros b <=? micros a)
  else Raise TypeError.

(** The counters of the loop of [get_stats]. *)
Record tally := {
  total_today : nat;
  contributors_hour : list pyval;
  branches_today : list pyval;
  conflict_count : nat;
}.

(** [s.add(x)]. *)
Definition set_insert (s : list pyval) (x : pyval) : outcome (list pyval) :=
  if py_hashable x then Ret (set_add x s) else Raise TypeError.

(** What is stored under the key of the recent events. *)
Definition stored (w : World) : list string :=
  list_at (server w) RECENT_EVENTS_KEY.

Section Client.
(** [json.dumps] and [json.loads]. *)
Variable json_dumps : gmap string pyval → string.
Variable json_loads : string → outcome pyval.
(** [datetime.fromisoformat]; [None] stands for its [ValueError]. *)
Variable fromisoformat : string → option datetime.

Definition publish_do (payload : string) : M World unit :=
  execute [ PUBLISH CHANNEL_NAME payload;
            LPUSH RECENT_EVENTS_KEY payload;
            LTRIM RECENT_EVENTS_KEY 0 (MAX_RECENT_EVENTS - 1) ].

Definition publish_event (event : gmap string pyval) : M World unit :=
  let payload := json_dumps event in
  _retry (publish_do payload) default_retries default_delay.

Definition recent_do (count : Z) : M World (list pyval) :=
  do raw ← lrange RECENT_EVENTS_KEY 0 (count - 1);
  lift (mapM json_loads raw).

Definition get_recent_events (count : Z) : M World (list pyval) :=
  _retry (recent_do count) default_retries default_delay.

(** The timestamp of an event under [except (ValueError, TypeError)]:
    [None] when the loop moves on to the next event. *)
Definition stats_ts (ev : pyval) : outcome (option datetime) :=
  field ← py_get ev "timestamp" (PStr "");
  match field with
  | PStr s => Ret (fromisoformat s)
  | _ => Ret None
  end.

(** One turn of the loop of [get_stats]. *)
Definition count_event (today_start one_hour_ago : datetime)
    (t : tally) (ev : pyval) : outcome tally :=
  parsed ← stats_ts ev;
  match parsed with
  | None => Ret t
  | Some ts =>
      today ← dt_ge ts today_start;
      t ← (if today : bool then
             branch ← py_get ev "branch" (PStr "");
             branches ← (if py_truthy branch
                         then set_insert (branches_today t) branch
                         else Ret (branches_today t));
             alert ← py_get ev "alert" PNone;
             Ret {| total_today := S (total_today t);
                    contributors_hour := contributors_hour t;
                    branches_today := branches;
                    conflict_count :=
                      if py_truthy alert then S (conflict_count t)
                      else conflict_count t |}
           else Ret t);
      recent ← dt_ge ts one_hour_ago;
      if recent : bool then
        actor ← py_get ev "actor" (PStr "");
        contributors ← set_insert (contributors_hour t) actor;
        Ret {| total_today := total_today t;
               contributors_hour := contributors;
               branches_today := branches_today t;
               conflict_count := conflict_count t |}
      else Ret t
  end.

Fixpoint count_events (today_start one_hour_ago : datetime)
    (t : tally) (events : list pyval) : outcome tally :=
  match events with
  | [] => Ret t
  | ev :: rest =>
      t ← count_event today_start one_hour_ago t ev;
      count_events today_start one_hour_ago t rest
  end.

Definition microseconds_per_day : Z := 86400 * 1000000.
Definition microseconds_per_hour : Z := 3600 * 1000000.

Definition stats_do : M World Stats :=
  do raw ← lrange RECENT_EVENTS_KEY 0 (MAX_RECENT_EVENTS - 1);
  do events ← lift (mapM json_loads raw);
  do now ← gets clock;
  let today_start :=
    {| tz_aware := true; micros := now - now mod microseconds_per_day |} in
  let one_hour_ago :=
    {| tz_aware := true; micros := now - microseconds_per_hour |} in
  do t ← lift (count_events today_start one_hour_ago
                 {| total_today := 0; contributors_hour := [];
                    branches_today := []; conflict_count := 0 |} events);
  ret {| total_events_today := total_today t;
         active_contributors := length (contributors_hour t);
         branches_modified := length (branches_today t);
         conflict_alerts := conflict_count t |}.

Definition get_stats : M World Stats :=
  _retry stats_do default_retries default_delay.

(** *** Vocabulary for the statements about the statistics *)

(** The instant of a stored event on the time line: that of its
    timestamp, when it is a string that parses to a datetime with an
    offset. *)
Definition instant (ev : pyval) : option Z :=
  match stats_ts ev with
  | Ret (Some ts) => if tz_aware ts then Some (micros ts) else None
  | _ => None
  end.

(** The event is dated at [start] or later. *)
Definition since (start : Z) (ev : pyval) : bool :=
  match instant ev with
  | Some t => start <=? t
  | None => false
  end.

(** The string under [k], the empty string when there is none. *)
Definition text_field (ev : pyval) (k : string) : string :=
  match py_get ev k (PStr "") with
  | Ret (PStr s) => s
  | _ => ""
  end.

(** The event carries an alert. *)
Definition flagged (ev : pyval) : bool :=
  match py_get ev "alert" PNone with
  | Ret a => py_truthy a
  | Raise _ => false
  end.

(** A stored event as [parse_event] writes it: a dict whose [branch] and
    [actor], when present, are strings, and whose timestamp, when it
    parses, has an offset. *)
Definition stats_shape (ev : pyval) : bool :=
  match ev with
  | PDict d =>
      Processor.absent_or is_str d "branch"
      && Processor.absent_or is_str d "actor"
      && match stats_ts ev with
         | Ret (Some ts) => tz_aware ts
         | _ => true
         end
  | _ => false
  end.

(** Midnight before [now], and one hour before [now]. *)
Definition today_start_of (now : Z) : Z := now - now mod microseconds_per_day.
Definition one_hour_before (now : Z) : Z := now - microseconds_per_hour.

(** How many of the faults let the commands reach the server. *)
Definition reached (fs : list fault) : nat :=
  length (List.filter (λ f, match f with ReplyLost => true | RequestLost => false end) fs).

(** *** Vocabulary for the statements about the store *)

(** Appending the events one after the other, oldest first. *)
Fixpoint publish_all (events : list (gmap string pyval)) : M World unit :=
  match events with
  | [] => ret tt
  | event :: rest => do _ ← publish_event event; publish_all rest
  end.
End Client.

(** The retry policy in the words of the specification, for [attempts]
    attempts: run the operation; return its result when it succeeds or
    when it was the last attempt; otherwise sleep for [delay] and go
    on. *)
Fixpoint policy {A} (op : M World A) (delay : Z) (attempts : nat)
  : M World A :=
  match attempts with
  | 0%nat => raise TypeError
  | 1%nat => op
  | S n =>
      λ w, match op w with
           | (Ret a, w') => (Ret a, w')
           | (Raise _, w') => policy op delay n (pause delay w')
           end
  end.

(** The same for three attempts one second apart, written out. *)
Definition three_attempts {A} (op : M World A) : M World A :=
  λ w,
    match op w with
    | (Ret a, w1) => (Ret a, w1)
    | (Raise _, w1) =>
        match op (pause 1000000 w1) with
        | (Ret a, w2) => (Ret a, w2)
        | (Raise _, w2) => op (pause 1000000 w2)
        end
    end.

End RedisClient.

(* ===================================================================== *)
(** * Concrete inputs used in the examples *)
(* ===================================================================== *)

Module Examples.
Import Py Models.

Definition push_at (b : string) (files : list string) (ts : string) : GitEvent :=
  {| event_type := Some "push"; branch := Some b;
     files_changed := Some files; timestamp := Some ts |}.

(** A push to [feature/x] at noon and a push to [feature/y] three minutes
    later, with [b.py] in common. *)
Definition push_x : GitEvent :=
  push_at "feature/x" ["a.py"; "b.py"] "2024-03-01T12:00:00+00:00".
Definition push_y : GitEvent :=
  push_at "feature/y" ["b.py"; "c.py"] "2024-03-01T12:03:00+00:00".

(** A push to [feature/y] a quarter of an hour before [push_x], and one
    whose timestamp has no offset. *)
Definition stale_y : GitEvent :=
  push_at "feature/y" ["b.py"; "c.py"] "2024-03-01T11:45:00+00:00".
Definition naive_y : GitEvent :=
  push_at "feature/y" ["b.py"; "c.py"] "2024-03-01T11:59:00".

(** The alert for [push_x] arriving after [push_y] was stored, and the one
    for [push_y] arriving after [push_x]. *)
Definition alert_x_after_y : ConflictAlert :=
  {| type := "conflict_risk";
     severity := "medium";
     message := "Branch 'feature/x' and 'feature/y' both modified 'b.py'";
     branches := ["feature/x"; "feature/y"];
     conflicting_files := ["b.py"] |}.
Definition alert_y_after_x : ConflictAlert :=
  {| type := "conflict_risk";
     severity := "medium";
     message := "Branch 'feature/y' and 'feature/x' both modified 'b.py'";
     branches := ["feature/y"; "feature/x"];
     conflicting_files := ["b.py"] |}.

(** [repr] is not reached in the examples: none of them formats a list or
    a dict. *)
Definition repr_unused (v : pyval) : string := "".

Definition commit_a : pyval :=
  PDict {[ "added" := PList [PStr "src/auth.py"] ]}.
Definition commit_b : pyval :=
  PDict {[ "modified" := PList [PStr "src/main.py"; PStr "src/auth.py"] ]}.

(** A push of one commit, a push of two, and a push without [sender]. *)
Definition one_commit : gmap string pyval :=
  {[ "ref" := PStr "refs/heads/main";
     "pusher" := PDict {[ "name" := PStr "alice" ]};
     "sender" := PDict {[ "login" := PStr "alice" ]};
     "commits" := PList [commit_a] ]}.
Definition two_commits : gmap string pyval :=
  {[ "ref" := PStr "refs/heads/main";
     "pusher" := PDict {[ "name" := PStr "alice" ]};
     "sender" := PDict {[ "login" := PStr "alice" ]};
     "commits" := PList [commit_a; commit_b] ]}.
Definition push_without_sender : gmap string pyval :=
  {[ "ref" := PStr "refs/heads/main";
     "pusher" := PDict {[ "name" := PStr "alice" ]} ]}.

(** A pull request by bob, closed and merged into [main]. *)
Definition merged_pr : gmap string pyval :=
  {[ "action" := PStr "closed";
     "pull_request" :=
       PDict {[ "number" := PInt 42;
                "title" := PStr "Add login";
                "merged" := PBool true;
                "user" := PDict {[ "login" := PStr "bob" ]};
                "head" := PDict {[ "ref" := PStr "feature/auth" ]};
                "base" := PDict {[ "ref" := PStr "main" ]} ]};
     "sender" := PDict {[ "login" := PStr "bob" ]} ]}.

(** The creation of a branch by carol. *)
Definition created_branch : gmap string pyval :=
  {[ "ref" := PStr "hotfix/payment-bug";
     "ref_type" := PStr "branch";
     "sender" := PDict {[ "login" := PStr "carol" ]} ]}.

(** A payload whose [sender] is JSON [null]. *)
Definition null_sender : gmap string pyval := {[ "sender" := PNone ]}.

(** A network on which every handshake succeeds and every send fails. *)
Definition handshake_ok (ws : WebsocketManager.WebSocket) : bool := true.
Definition link_down (ws : WebsocketManager.WebSocket) (k : nat) : bool := false.

(** Two stored events, as handed to a new connection. *)
Definition seed_1 : gmap string pyval := {[ "id" := PStr "1" ]}.
Definition seed_2 : gmap string pyval := {[ "id" := PStr "2" ]}.

(** A manager without connections, before any send. *)
Definition fresh_manager : WebsocketManager.World :=
  {| WebsocketManager._active_connections := ∅; WebsocketManager.wire := [] |}.

(** A codec for events that carry only an [id]: the serialised form is the
    id itself. *)
Definition id_dumps (event : gmap string pyval) : string :=
  match event !! "id" with
  | Some (PStr s) => s
  | _ => ""
  end.
Definition id_loads (s : string) : outcome pyval :=
  Ret (PDict {[ "id" := PStr s ]}).

(** An empty server, no fault ahead, the clock at noon on 2024-03-01. *)
Definition quiet_store : RedisClient.World :=
  {| RedisClient.server :=
       {| RedisClient.lists := ∅; RedisClient.published := [] |};
     RedisClient.faults := [];
     RedisClient.clock := 1709294400000000;
     RedisClient.slept := [] |}.

(** The same store behind a connection that loses the next two requests. *)
Definition flaky_store : RedisClient.World :=
  {| RedisClient.server :=
       {| RedisClient.lists := ∅; RedisClient.published := [] |};
     RedisClient.faults :=
       [Some RedisClient.RequestLost; Some RedisClient.RequestLost];
     RedisClient.clock := 1709294400000000;
     RedisClient.slept := [] |}.

End Examples.

(* ===================================================================== *)
(** * Facts about the order used by [sorted] *)
(* ===================================================================== *)

Module OrderFacts.
Import Py.

Lemma ascii_compare_refl (c : ascii) : Ascii.compare c c = Eq.
Proof. unfold Ascii.compare. apply N.compare_refl. Qed.

Lemma ascii_compare_lt_trans (a b c : ascii) :
  Ascii.compare a b = Lt → Ascii.compare b c = Lt → Ascii.compare a c = Lt.
Proof.
  unfold Ascii.compare. rewrite !N.compare_lt_iff. apply N.lt_trans.
Qed.

Lemma string_compare_refl (s : string) : String.compare s s = Eq.
Proof.
  induction s as [|c s IH]; simpl; [done|]. by rewrite ascii_compare_refl.
Qed.

(** [compare] never answers [Gt] along a chain that never does. *)
Lemma string_compare_not_gt_trans (s1 s2 s3 : string) :
  String.compare s1 s2 ≠ Gt → String.compare s2 s3 ≠ Gt →
  String.compare s1 s3 ≠ Gt.
Proof.
  revert s2 s3.
  induction s1 as [|c1 s1 IH]; intros [|c2 s2] [|c3 s3]; simpl; try done.
  destruct (Ascii.compare c1 c2) eqn:E12; [| |done].
  - apply Ascii.compare_eq_iff in E12 as ->.
    destruct (Ascii.compare c2 c3) eqn:E23; [|done..]. apply IH.
  - destruct (Ascii.compare c2 c3) eqn:E23; [| |done].
    + apply Ascii.compare_eq_iff in E23 as <-. by rewrite E12.
    + by rewrite (ascii_compare_lt_trans _ _ _ E12 E23).
Qed.

Lemma str_le_not_gt (a b : string) : str_le a b ↔ String.compare a b ≠ Gt.
Proof.
  unfold str_le, String.leb. by destruct (String.compare a b).
Qed.

#[export] Instance str_le_refl : Reflexive str_le.
Proof. intros s. apply str_le_not_gt. by rewrite string_compare_refl. Qed.

#[export] Instance str_le_trans : Transitive str_le.
Proof.
  intros a b c. rewrite !str_le_not_gt. apply string_compare_not_gt_trans.
Qed.

#[export] Instance str_le_total : Total str_le.
Proof. intros a b. apply String.leb_total. Qed.

#[export] Instance str_le_antisym : AntiSymm eq str_le.
Proof. intros a b. apply String.leb_antisym. Qed.

Lemma sorted_strs_perm (s : gset string) : sorted_strs s ≡ₚ elements s.
Proof. apply merge_sort_Permutation. Qed.

Lemma elem_of_sorted_strs (s : gset string) (x : string) :
  x ∈ sorted_strs s ↔ x ∈ s.
Proof. by rewrite sorted_strs_perm, elem_of_elements. Qed.

Lemma sorted_strs_NoDup (s : gset string) : NoDup (sorted_strs s).
Proof. rewrite sorted_strs_perm. apply NoDup_elements. Qed.

Lemma sorted_strs_sorted (s : gset string) : StronglySorted str_le (sorted_strs s).
Proof. apply StronglySorted_merge_sort; apply _. Qed.

Lemma sorted_strs_length (s : gset string) : length (sorted_strs s) = size s.
Proof. by rewrite sorted_strs_perm. Qed.

Lemma sorted_strs_nil (s : gset string) : sorted_strs s = [] ↔ s = ∅.
Proof.
  split.
  - intros E. apply set_eq. intros x. rewrite <- elem_of_sorted_strs, E.
    set_solver.
  - intros ->. apply Permutation_nil_r. by rewrite sorted_strs_perm, elements_empty.
Qed.

End OrderFacts.

(* ===================================================================== *)
(** * Conflict detection *)
(* ===================================================================== *)

Module DetectorFacts.
Import Py Models Processor OrderFacts.

Section Scan.
Variable fromisoformat : string → option datetime.
Variable new_files : gset string.
Variable new_branch : string.
Variable new_ts : datetime.

Abbreviation scan' := (scan fromisoformat new_files new_branch new_ts).
Abbreviation candidate' := (candidate fromisoformat new_branch new_ts).

Abbreviation hit := (Processor.hit fromisoformat new_files new_branch new_ts).

Lemma hit_cons ev recent b f :
  hit (ev :: recent) b f ↔
  (∃ ts, candidate' ev b ts ∧ f ∈ new_files ∧ f ∈ default [] (files_changed ev))
  ∨ hit recent b f.
Proof.
  unfold Processor.hit. split.
  - intros (ev' & ts & Hin & Hc). apply elem_of_cons in Hin as [->|Hin]; eauto.
  - intros [(ts & Hc)|(ev' & ts & Hin & Hc)].
    + exists ev, ts. split; [left|done].
    + exists ev', ts. split; [by right|done].
Qed.

Lemma hit_nil b f : ¬ hit [] b f.
Proof. intros (ev & ts & Hin & _). by apply elem_of_nil in Hin. Qed.

(** The loop collects exactly the files and the branches of the hits. *)
Lemma scan_spec recent : ∀ cf0 cb0 cf cb,
  scan' recent cf0 cb0 = Ret (cf, cb) →
  (∀ f, f ∈ cf ↔ f ∈ cf0 ∨ ∃ b, hit recent b f)
  ∧ (∀ b, b ∈ cb ↔ b ∈ cb0 ∨ ∃ f, hit recent b f).
Proof.
  induction recent as [|ev recent IH]; intros cf0 cb0 cf cb Hscan.
  { simpl in Hscan. injection Hscan as <- <-.
    split; intros x; (split; [by left|]);
      (intros [?|[? H]]; [done|by apply hit_nil in H]). }
  assert (Hskip : ∀ b f,
    (∀ ts, candidate' ev b ts → f ∈ new_files →
           f ∈ default [] (files_changed ev) → False) →
    hit (ev :: recent) b f ↔ hit recent b f).
  { intros b f Hno. rewrite hit_cons. split; [|by right].
    intros [(ts & Hc & Hf1 & Hf2)|]; [|done]. destruct (Hno ts Hc Hf1 Hf2). }
  assert (Hpass : (∀ b f ts, candidate' ev b ts → f ∈ new_files →
                      f ∈ default [] (files_changed ev) → False) →
    scan' recent cf0 cb0 = Ret (cf, cb) →
    (∀ f, f ∈ cf ↔ f ∈ cf0 ∨ ∃ b, hit (ev :: recent) b f)
    ∧ (∀ b, b ∈ cb ↔ b ∈ cb0 ∨ ∃ f, hit (ev :: recent) b f)).
  { intros Hno Hrest. apply IH in Hrest as [HF HB].
    split; intros x; [rewrite HF|rewrite HB]; apply or_iff_compat_l;
      apply exist_proper; intros y; symmetry; apply Hskip; eauto. }
  simpl in Hscan.
  destruct (is_push ev) eqn:Hpush; simpl in Hscan; cycle 1.
  { apply Hpass; [|done]. intros b f ts (Hp & _). congruence. }
  destruct (String.eqb_spec (default "" (branch ev)) new_branch) as [Heq|Hnb];
    simpl in Hscan.
  { apply Hpass; [|done]. intros b f ts (_ & Hb & _ & Hne & _).
    rewrite Hb in Heq. simpl in Heq. congruence. }
  destruct (String.eqb_spec (default "" (branch ev)) "") as [Heq|Hne];
    simpl in Hscan.
  { apply Hpass; [|done]. intros b f ts (_ & Hb & Hne & _).
    rewrite Hb in Heq. simpl in Heq. congruence. }
  destruct (parse_ts fromisoformat ev) as [ts|] eqn:Hts; cycle 1.
  { apply Hpass; [|done]. intros b f ts (_ & _ & _ & _ & Hp & _). congruence. }
  unfold dt_sub in Hscan.
  destruct (Bool.eqb (tz_aware new_ts) (tz_aware ts)); simpl in Hscan; [|done].
  destruct (Z.ltb_spec window (micros new_ts - micros ts)) as [Hgt|Hle].
  { apply Hpass; [|done]. intros b f ts' (_ & _ & _ & _ & Hp & Hw).
    assert (ts' = ts) as -> by congruence. lia. }
  set (files := default [] (files_changed ev)) in *.
  destruct (decide (new_files ∩ list_to_set files = ∅)) as [Hov|Hov].
  { apply Hpass; [|done]. intros b f ts' _ Hf1 Hf2.
    apply (not_elem_of_empty (C:=gset string) f). rewrite <- Hov.
    apply elem_of_intersection. split; [done|]. by apply elem_of_list_to_set. }
  destruct (branch ev) as [b|] eqn:Hb; simpl in *; [|done].
  assert (Hcand : candidate' ev b ts) by (repeat split; auto).
  apply set_choose_L in Hov as [f0 Hf0].
  apply elem_of_intersection in Hf0 as [Hf0 Hf0'].
  apply elem_of_list_to_set in Hf0'.
  apply IH in Hscan as [HF HB]. split.
  - intros f. rewrite HF, elem_of_app, elem_of_elements, elem_of_intersection,
      elem_of_list_to_set. split.
    + intros [[?|[Hf Hf']]|[b' Hh]]; [by left| |].
      * right. exists b. apply hit_cons. left. by exists ts.
      * right. exists b'. apply hit_cons. by right.
    + intros [?|[b' Hh]]; [by left; left|].
      apply hit_cons in Hh as [(ts' & _ & Hf & Hf')|Hh]; [by left; right|].
      right. by exists b'.
  - intros b'. rewrite HB, elem_of_union, elem_of_singleton. split.
    + intros [[->|?]|[f Hh]]; [|by left|].
      * right. exists f0. apply hit_cons. left. by exists ts.
      * right. exists f. apply hit_cons. by right.
    + intros [?|[f Hh]]; [by left; right|].
      apply hit_cons in Hh as [(ts' & Hc & _)|Hh].
      * left. left. destruct Hc as (_ & Hb' & _). congruence.
      * right. by exists f.
Qed.

(** The loop raises only on a timestamp whose [tzinfo] does not match. *)
Lemma scan_returns recent : ∀ cf0 cb0,
  (∀ ev ts, ev ∈ recent → parse_ts fromisoformat ev = Some ts →
            tz_aware ts = tz_aware new_ts) →
  ∃ r, scan' recent cf0 cb0 = Ret r.
Proof.
  induction recent as [|ev recent IH]; intros cf0 cb0 Htz; simpl; [eauto|].
  assert (Htz' : ∀ ev' ts, ev' ∈ recent →
            parse_ts fromisoformat ev' = Some ts →
            tz_aware ts = tz_aware new_ts).
  { intros ev' ts Hin. apply Htz. by right. }
  destruct (negb (is_push ev)); [by apply IH|].
  destruct (_ || _)%bool; [by apply IH|].
  destruct (parse_ts fromisoformat ev) as [ts|] eqn:Hts; [|by apply IH].
  unfold dt_sub. rewrite (Htz ev ts) by (done || left).
  rewrite Bool.eqb_reflx. simpl.
  destruct (_ <? _); [by apply IH|].
  destruct (decide _); by apply IH.
Qed.
End Scan.

End DetectorFacts.

Module DetectorClaims.
Import Py Models Processor OrderFacts DetectorFacts Examples.

Section Detect.
Variable fromisoformat : string → option datetime.
Variable now : Z.

Abbreviation detect := (detect_conflicts fromisoformat now).
Abbreviation conflict' := (conflict fromisoformat now).

Lemma hit_conflict new_event recent b f :
  hit fromisoformat (list_to_set (default [] (files_changed new_event)))
      (default "" (branch new_event)) (new_timestamp fromisoformat now new_event)
      recent b f
  ↔ conflict' new_event recent b f.
Proof.
  unfold Processor.hit, conflict. apply exist_proper; intros ev.
  apply exist_proper; intros ts. by rewrite elem_of_list_to_set.
Qed.

(** The shape of an alert, and of the inputs that produce none. *)
Lemma detect_conflicts_inv new_event recent r :
  detect new_event recent = Ret r →
  match r with
  | Some alert =>
      is_push new_event = true
      ∧ ∃ files others : gset string,
          (∀ f, f ∈ files ↔ ∃ b, conflict' new_event recent b f)
          ∧ (∀ b, b ∈ others ↔ ∃ f, conflict' new_event recent b f)
          ∧ files ≠ ∅
          ∧ type alert = "conflict_risk"
          ∧ conflicting_files alert = sorted_strs files
          ∧ branches alert = default "" (branch new_event) :: sorted_strs others
          ∧ severity alert =
              if (3 <=? length (sorted_strs files))%nat then "high" else "medium"
  | None =>
      ¬ (is_push new_event = true ∧ ∃ b f, conflict' new_event recent b f)
  end.
Proof.
  unfold detect_conflicts.
  destruct (is_push new_event) eqn:Hpush; simpl; cycle 1.
  { intros [= <-]. by intros [? _]. }
  destruct (decide (_ = ∅)) as [Hempty|Hfiles].
  { intros [= <-]. intros (_ & b & f & ev & ts & _ & _ & Hf & _).
    apply (not_elem_of_empty (C:=gset string) f). rewrite <- Hempty.
    by apply elem_of_list_to_set. }
  destruct (scan _ _ _ _ _ _ _) as [[cf cb]|] eqn:Hscan; simpl; [|done].
  apply scan_spec in Hscan as [HF HB].
  assert (HF' : ∀ f, f ∈ cf ↔ ∃ b, conflict' new_event recent b f).
  { intros f. rewrite HF. setoid_rewrite hit_conflict.
    split; [intros [H|H]; [by apply elem_of_nil in H|done]|by right]. }
  assert (HB' : ∀ b, b ∈ cb ↔ ∃ f, conflict' new_event recent b f).
  { intros b. rewrite HB. setoid_rewrite hit_conflict.
    split; [intros [H|H]; [by apply not_elem_of_empty in H|done]|by right]. }
  destruct cf as [|f0 cf].
  { intros [= <-]. intros (_ & b & f & Hc).
    apply (elem_of_nil f). apply HF'. eauto. }
  set (files := list_to_set (f0 :: cf) : gset string).
  assert (Hf0 : f0 ∈ files) by (apply elem_of_list_to_set; left).
  destruct (proj1 (HF' f0) ltac:(left)) as [b0 Hb0].
  assert (Hcb : b0 ∈ cb) by (apply HB'; eauto).
  destruct (sorted_strs cb) as [|b1 bs] eqn:Ebs.
  { apply sorted_strs_nil in Ebs. set_solver. }
  destruct (sorted_strs files) as [|f1 fs] eqn:Efs.
  { apply sorted_strs_nil in Efs. set_solver. }
  simpl. intros [= <-]. simpl. split; [done|].
  exists files, cb. rewrite Efs, Ebs. repeat split; try done.
  - intros Hf. apply elem_of_list_to_set in Hf. by apply HF'.
  - intros Hc. apply elem_of_list_to_set. by apply HF'.
  - by apply HB'.
  - by apply HB'.
  - set_solver.
Qed.

(** Detection returns whenever no timestamp mixes the two kinds of
    datetime. *)
Lemma detect_conflicts_returns new_event recent :
  (∀ ev ts, ev ∈ recent → parse_ts fromisoformat ev = Some ts →
            tz_aware ts = tz_aware (new_timestamp fromisoformat now new_event)) →
  ∃ r, detect new_event recent = Ret r.
Proof.
  intros Htz. unfold detect_conflicts.
  destruct (negb (is_push new_event)); [eauto|].
  destruct (decide _); [eauto|].
  set (new_files := list_to_set (default [] (files_changed new_event)) : gset string).
  destruct (scan_returns fromisoformat new_files (default "" (branch new_event))
              _ recent [] ∅ Htz) as [[cf cb] Hscan].
  pose proof Hscan as Hspec. apply scan_spec in Hspec as [HF HB].
  rewrite Hscan. simpl.
  destruct cf as [|f0 cf]; [eauto|].
  destruct (proj1 (HF f0) ltac:(left)) as [H|[b0 Hb0]];
    [by apply elem_of_nil in H|].
  assert (Hcb : b0 ∈ cb) by (apply HB; eauto).
  destruct (sorted_strs cb) as [|b1 bs] eqn:Ebs.
  { apply sorted_strs_nil in Ebs. set_solver. }
  destruct (sorted_strs (list_to_set (f0 :: cf))) as [|f1 fs] eqn:Efs.
  { apply sorted_strs_nil in Efs. set_solver. }
  simpl. eauto.
Qed.
End Detect.

End DetectorClaims.

Module DetectorTheorems.
Import Py Models Processor OrderFacts DetectorFacts DetectorClaims Examples.

(** C1 (as stated, refuted).  A candidate pushed three minutes after the
    new event is not skipped: it is later than the new event, and the alert
    carries its branch and the file it shares with the new event. *)
Lemma later_candidate_contributes :
  ¬ not_later fromisoformat_utc 0 push_x push_y
  ∧ detect_conflicts fromisoformat_utc 0 push_x [push_y]
    = Ret (Some alert_x_after_y).
Proof.
  split; [|by vm_compute].
  intros (ts & Hts & Hle). vm_compute in Hts. injection Hts as <-.
  vm_compute in Hle. by apply Hle.
Qed.

(** C1 (amended).  Whenever [detect_conflicts] returns, every file and
    every branch after the first in its alert comes from a candidate (a push
    on another, non-empty branch whose timestamp parses) that is no more
    than ten minutes older than the new event; and every candidate within
    ten minutes of the new event, before or after it, that shares a file
    with the new push puts that file and its own branch in the alert. *)
Theorem window_of_ten_minutes
    (fromisoformat : string → option datetime) (now : Z)
    (new_event : GitEvent) (recent_events : list GitEvent)
    (r : option ConflictAlert) :
  detect_conflicts fromisoformat now new_event recent_events = Ret r →
  (∀ alert, r = Some alert →
     (∀ f, f ∈ conflicting_files alert →
           ∃ b, conflict fromisoformat now new_event recent_events b f)
     ∧ (∀ b, b ∈ tail (branches alert) →
             ∃ f, conflict fromisoformat now new_event recent_events b f))
  ∧ (∀ ev b ts f,
       is_push new_event = true → ev ∈ recent_events →
       candidate fromisoformat (default "" (branch new_event))
         (new_timestamp fromisoformat now new_event) ev b ts →
       - window ≤ micros (new_timestamp fromisoformat now new_event) - micros ts →
       f ∈ default [] (files_changed new_event) →
       f ∈ default [] (files_changed ev) →
       ∃ alert, r = Some alert ∧ f ∈ conflicting_files alert
                ∧ b ∈ tail (branches alert)).
Proof.
  intros Hdet. apply detect_conflicts_inv in Hdet. split.
  - intros alert ->.
    destruct Hdet as (_ & files & others & HF & HB & _ & _ & -> & -> & _).
    simpl. split; intros x; rewrite elem_of_sorted_strs; [apply HF|apply HB].
  - intros ev b ts f Hpush Hin Hcand _ Hf Hf'.
    assert (Hc : conflict fromisoformat now new_event recent_events b f)
      by (exists ev, ts; done).
    destruct r as [alert|]; [|destruct Hdet; eauto].
    destruct Hdet as (_ & files & others & HF & HB & _ & _ & Hcf & Hbr & _).
    exists alert. split; [done|]. rewrite Hcf, Hbr. simpl.
    rewrite !elem_of_sorted_strs. split; [apply HF|apply HB]; eauto.
Qed.

Lemma window_of_ten_minutes_witness :
  detect_conflicts fromisoformat_utc 0 push_x [push_y]
    = Ret (Some alert_x_after_y)
  ∧ (∀ alert, Some alert_x_after_y = Some alert →
       (∀ f, f ∈ conflicting_files alert →
             ∃ b, conflict fromisoformat_utc 0 push_x [push_y] b f)
       ∧ (∀ b, b ∈ tail (branches alert) →
               ∃ f, conflict fromisoformat_utc 0 push_x [push_y] b f))
  ∧ (∀ ev b ts f,
       is_push push_x = true → ev ∈ [push_y] →
       candidate fromisoformat_utc (default "" (branch push_x))
         (new_timestamp fromisoformat_utc 0 push_x) ev b ts →
       - window ≤ micros (new_timestamp fromisoformat_utc 0 push_x) - micros ts →
       f ∈ default [] (files_changed push_x) →
       f ∈ default [] (files_changed ev) →
       ∃ alert, Some alert_x_after_y = Some alert
                ∧ f ∈ conflicting_files alert
                ∧ b ∈ tail (branches alert)).
Proof.
  split; [by vm_compute|].
  apply (window_of_ten_minutes fromisoformat_utc 0 push_x [push_y]
           (Some alert_x_after_y)).
  by vm_compute.
Defined.

(** C7.  In every alert the conflicting files are listed once each, and
    the severity is [high] exactly when there are three or more of them and
    [medium] exactly when there are one or two. *)
Theorem severity_by_distinct_files
    (fromisoformat : string → option datetime) (now : Z)
    (new_event : GitEvent) (recent_events : list GitEvent)
    (alert : ConflictAlert) :
  detect_conflicts fromisoformat now new_event recent_events = Ret (Some alert) →
  NoDup (conflicting_files alert)
  ∧ (∀ f, f ∈ conflicting_files alert
          ↔ ∃ b, conflict fromisoformat now new_event recent_events b f)
  ∧ (severity alert = "high" ↔ (3 ≤ length (conflicting_files alert))%nat)
  ∧ (severity alert = "medium"
     ↔ length (conflicting_files alert) = 1%nat
       ∨ length (conflicting_files alert) = 2%nat).
Proof.
  intros Hdet. apply detect_conflicts_inv in Hdet.
  destruct Hdet as (_ & files & others & HF & _ & Hne & _ & -> & _ & ->).
  split; [apply sorted_strs_NoDup|].
  split; [intros f; rewrite elem_of_sorted_strs; apply HF|].
  assert (Hpos : (0 < length (sorted_strs files))%nat).
  { destruct (sorted_strs files) eqn:E; [|simpl; lia].
    by apply sorted_strs_nil in E. }
  destruct (Nat.leb_spec 3 (length (sorted_strs files))); split;
    (split; [try done; try lia|try done; try lia]).
Qed.

Lemma severity_by_distinct_files_witness :
  detect_conflicts fromisoformat_utc 0 push_y [push_x]
    = Ret (Some alert_y_after_x)
  ∧ NoDup ["b.py"]
  ∧ (∀ f, f ∈ ["b.py"]
          ↔ ∃ b, conflict fromisoformat_utc 0 push_y [push_x] b f)
  ∧ ("medium" = "high" ↔ (3 ≤ 1)%nat)
  ∧ ("medium" = "medium" ↔ 1%nat = 1%nat ∨ 1%nat = 2%nat).
Proof.
  split; [by vm_compute|].
  apply (severity_by_distinct_files fromisoformat_utc 0 push_y [push_x]
           alert_y_after_x).
  by vm_compute.
Defined.

(** C8.  In every alert the list of branches starts with the branch of the
    new event; the entries after it are the branches in conflict, each once,
    in sorted order, and the branch of the new event is not among them. *)
Theorem alert_branches
    (fromisoformat : string → option datetime) (now : Z)
    (new_event : GitEvent) (recent_events : list GitEvent)
    (alert : ConflictAlert) :
  detect_conflicts fromisoformat now new_event recent_events = Ret (Some alert) →
  ∃ others,
    branches alert = default "" (branch new_event) :: others
    ∧ (∀ b, b ∈ others
            ↔ ∃ f, conflict fromisoformat now new_event recent_events b f)
    ∧ NoDup others
    ∧ StronglySorted str_le others
    ∧ default "" (branch new_event) ∉ others.
Proof.
  intros Hdet. apply detect_conflicts_inv in Hdet.
  destruct Hdet as (_ & files & others & _ & HB & _ & _ & _ & -> & _).
  exists (sorted_strs others). split; [done|].
  split; [intros b; rewrite elem_of_sorted_strs; apply HB|].
  split; [apply sorted_strs_NoDup|].
  split; [apply sorted_strs_sorted|].
  rewrite elem_of_sorted_strs, HB.
  intros (f & ev & ts & _ & (_ & _ & _ & Hne & _) & _). done.
Qed.

Lemma alert_branches_witness :
  detect_conflicts fromisoformat_utc 0 push_y [push_x]
    = Ret (Some alert_y_after_x)
  ∧ ∃ others,
      ["feature/y"; "feature/x"] = "feature/y" :: others
      ∧ (∀ b, b ∈ others
              ↔ ∃ f, conflict fromisoformat_utc 0 push_y [push_x] b f)
      ∧ NoDup others
      ∧ StronglySorted str_le others
      ∧ "feature/y" ∉ others.
Proof.
  split; [by vm_compute|].
  apply (alert_branches fromisoformat_utc 0 push_y [push_x]
           alert_y_after_x).
  by vm_compute.
Defined.

End DetectorTheorems.

(* ===================================================================== *)
(** * Normalisation *)
(* ===================================================================== *)

Module NormalizerFacts.
Import Py Models Processor.

Lemma bind_ret {A B} (a : A) (k : A → outcome B) : (Ret a ≫= k) = k a.
Proof. done. Qed.

Lemma has_slash_cons (c : ascii) (s : string) :
  has_slash (String c s) = (Ascii.eqb c "/"%char || has_slash s)%bool.
Proof. done. Qed.

Lemma append_cons (a : ascii) (s t : string) :
  (String a s ++ t)%string = String a (s ++ t)%string.
Proof. reflexivity. Qed.

Lemma append_nil_r (s : string) : (s ++ "")%string = s.
Proof. induction s as [|a s IH]; [done|]. by rewrite append_cons, IH. Qed.

Lemma append_snoc (acc : string) (c : ascii) (s : string) :
  ((acc ++ String c EmptyString) ++ s)%string = (acc ++ String c s)%string.
Proof.
  induction acc as [|a acc IH]; [done|]. by rewrite !append_cons, IH.
Qed.

(** Without a slash the whole string is its own last segment. *)
Lemma after_last_slash_no_slash (s acc : string) :
  has_slash s = false → after_last_slash s acc = (acc ++ s)%string.
Proof.
  revert acc. induction s as [|c s IH]; intros acc Hs; simpl.
  - by rewrite append_nil_r.
  - rewrite has_slash_cons in Hs. apply orb_false_iff in Hs as [-> Hs].
    rewrite IH by done. apply append_snoc.
Qed.

Lemma last_segment_no_slash (s : string) :
  has_slash s = false → last_segment s = s.
Proof. intros Hs. unfold last_segment. by rewrite after_last_slash_no_slash. Qed.

(** [branch_of_ref] on a string, or on the default for a missing ref. *)
Lemma branch_of_ref_str (s : string) :
  branch_of_ref (PStr s) = Ret (PStr (last_segment s)).
Proof.
  unfold branch_of_ref. simpl. change (Ret (has_slash s) ≫= ?k) with (k (has_slash s)).
  simpl. destruct (has_slash s) eqn:Hs; [done|]. by rewrite last_segment_no_slash.
Qed.

Lemma get_nested (payload : gmap string pyval) (k1 k2 : string) (dflt : pyval) :
  absent_or is_dict payload k1 = true →
  py_get (dict_get payload k1 empty_dict) k2 dflt
  = Ret (default dflt (nested payload k1 k2)).
Proof.
  unfold absent_or, dict_get, nested. destruct (payload !! k1) as [[]|]; try done.
Qed.


(** ** [_extract_files_changed] on lists of strings *)

Lemma set_add_strs (x : pyval) (s : list pyval) :
  is_str x = true → forallb is_str s = true → forallb is_str (set_add x s) = true.
Proof.
  intros Hx Hs. unfold set_add. destruct (existsb _ _); [done|].
  rewrite forallb_app. simpl. by rewrite Hs, Hx.
Qed.

Lemma is_str_hashable (x : pyval) : is_str x = true → py_hashable x = true.
Proof. by destruct x. Qed.

Lemma set_update_strs (l : list pyval) : ∀ s,
  forallb is_str l = true → forallb is_str s = true →
  ∃ s', set_update s (PList l) = Ret s' ∧ forallb is_str s' = true.
Proof.
  unfold set_update. simpl. change (Ret l ≫= ?k) with (k l). simpl.
  induction l as [|x l IH]; intros s Hl Hs; simpl; [eauto|].
  simpl in Hl. apply andb_true_iff in Hl as [Hx Hl].
  change (Ret s ≫= ?k) with (k s). simpl.
  rewrite is_str_hashable by done. apply IH; [done|]. by apply set_add_strs.
Qed.

Lemma set_update_field (c : gmap string pyval) (k : string) (s : list pyval) :
  absent_or (is_list_of is_str) c k = true → forallb is_str s = true →
  ∃ s', set_update s (dict_get c k (PList [])) = Ret s'
        ∧ forallb is_str s' = true.
Proof.
  unfold absent_or, dict_get. destruct (c !! k) as [[]|]; simpl; try done.
  - intros Hl Hs. by apply set_update_strs.
  - intros _ Hs. by apply (set_update_strs []).
Qed.

Lemma add_commit_files_strs (commit : pyval) (s : list pyval) :
  commit_shape commit = true → forallb is_str s = true →
  ∃ s', add_commit_files s commit = Ret s' ∧ forallb is_str s' = true.
Proof.
  destruct commit as [| | | | |c]; try done. simpl.
  rewrite !andb_true_iff. intros [[Ha Hm] Hr] Hs.
  unfold add_commit_files. simpl.
  change (Ret ?x ≫= ?k) with (k x). simpl.
  destruct (set_update_field c "added" s Ha Hs) as (s1 & -> & Hs1).
  change (Ret ?x ≫= ?k) with (k x). simpl.
  change (Ret ?x ≫= ?k) with (k x). simpl.
  destruct (set_update_field c "modified" s1 Hm Hs1) as (s2 & -> & Hs2).
  change (Ret ?x ≫= ?k) with (k x). simpl.
  change (Ret ?x ≫= ?k) with (k x). simpl.
  by apply set_update_field.
Qed.

Lemma collect_files_strs (commits : list pyval) : ∀ s,
  forallb commit_shape commits = true → forallb is_str s = true →
  ∃ s', collect_files s commits = Ret s' ∧ forallb is_str s' = true.
Proof.
  induction commits as [|c commits IH]; intros s Hc Hs; simpl; [eauto|].
  simpl in Hc. apply andb_true_iff in Hc as [Hc Hcs].
  destruct (add_commit_files_strs c s Hc Hs) as (s1 & -> & Hs1).
  change (Ret ?x ≫= ?k) with (k x). simpl. by apply IH.
Qed.

Lemma py_sorted_strs (s : list pyval) :
  forallb is_str s = true → ∃ l, py_sorted s = Ret l.
Proof.
  intros Hs. unfold py_sorted. destruct s as [|x [|y s]]; [eauto..|].
  rewrite Hs. simpl. eauto.
Qed.

Lemma extract_files_total (payload : gmap string pyval) :
  absent_or (is_list_of commit_shape) payload "commits" = true →
  ∃ files n,
    _extract_files_changed payload = Ret files
    ∧ py_len (dict_get payload "commits" (PList [])) = Ret n
    ∧ n = commit_count payload
    ∧ (payload !! "commits" = None → files = []).
Proof.
  unfold absent_or, _extract_files_changed, dict_get, commit_count.
  destruct (payload !! "commits") as [[| | | |l|]|]; simpl; try done.
  - intros Hl. change (Ret ?x ≫= ?k) with (k x). simpl.
    destruct (collect_files_strs l [] Hl eq_refl) as (s & -> & Hs).
    change (Ret ?x ≫= ?k) with (k x). simpl.
    destruct (py_sorted_strs s Hs) as [files ->]. by exists files, (length l).
  - intros _. by exists [], 0%nat.
Qed.

End NormalizerFacts.

Module NormalizerClaims.
Import Py Models Processor NormalizerFacts Examples.

Section Titles.
Variable repr_container : pyval → string.

Abbreviation fmt := (py_str repr_container).
Abbreviation title_of := (generate_title repr_container).

(** The title of a push, on the payloads whose [pusher], [ref] and
    [commits] have the expected types. *)
Lemma push_title (payload : gmap string pyval) :
  push_title_shape payload = true →
  title_of "push" payload
  = Ret (fmt (default (PStr "someone") (nested payload "pusher" "name"))
         ++ " pushed " ++ pretty (commit_count payload) ++ " "
         ++ (if Nat.eqb (commit_count payload) 1 then "commit" else "commits")
         ++ " to " ++ push_branch payload).
Proof.
  unfold push_title_shape. rewrite !andb_true_iff. intros [[Hp Hr] Hc].
  unfold generate_title. simpl. rewrite get_nested, bind_ret by done.
  unfold absent_or, dict_get, commit_count, push_branch in *.
  destruct (payload !! "ref") as [[| | |s| |]|]; try done;
    cbn [from_option id]; rewrite branch_of_ref_str, bind_ret;
    destruct (payload !! "commits") as [[| | | |l|]|]; try done.
Qed.

(** The title of an event that is neither a push nor a pull request
    starts with the login of the sender. *)
Lemma sender_title (event_type : string) (payload : gmap string pyval) :
  event_type ≠ "push" → event_type ≠ "pull_request" →
  absent_or is_dict payload "sender" = true →
  (event_type = "issues" → absent_or is_dict payload "issue" = true) →
  ∃ rest,
    title_of event_type payload
    = Ret (fmt (default (PStr "someone") (nested payload "sender" "login"))
           ++ rest)
    ∧ (known_kind event_type = false →
       rest = " triggered " ++ event_type ++ " event").
Proof.
  intros Hpush Hpr Hsender Hissue. unfold generate_title, known_kind.
  destruct (String.eqb_spec event_type "push"); [done|].
  destruct (String.eqb_spec event_type "pull_request"); [done|].
  rewrite !get_nested, !bind_ret by done. simpl.
  destruct (String.eqb_spec event_type "create"); [by eexists|].
  destruct (String.eqb_spec event_type "delete"); [by eexists|].
  destruct (String.eqb_spec event_type "issues") as [Hi|]; [|by eexists].
  specialize (Hissue Hi). unfold absent_or, dict_get in *.
  destruct (payload !! "issue") as [[]|]; try done; by eexists.
Qed.

Lemma pull_request_title (payload : gmap string pyval) :
  absent_or pull_request_shape payload "pull_request" = true →
  ∃ t, title_of "pull_request" payload = Ret t.
Proof.
  unfold absent_or, generate_title, dict_get. simpl.
  destruct (payload !! "pull_request") as [[| | | | |pr]|]; try done; simpl.
  - rewrite !andb_true_iff. intros [[Hu Hh] Hb].
    rewrite (get_nested pr "user" "login") by done. rewrite bind_ret.
    destruct (_ && _)%bool; [|by eexists].
    rewrite (get_nested pr "base" "ref") by done. rewrite bind_ret.
    by eexists.
  - intros _. rewrite ?bind_ret.
    destruct (_ && _)%bool; rewrite ?bind_ret; by eexists.
Qed.

Lemma title_total (event_type : string) (payload : gmap string pyval) :
  payload_shape event_type payload = true →
  ∃ t, title_of event_type payload = Ret t.
Proof.
  unfold payload_shape. rewrite !andb_true_iff.
  destruct (String.eqb_spec event_type "push") as [->|Hpush].
  { rewrite !andb_true_iff. intros [_ [[Hp Href] Hc]].
    rewrite push_title; [by eexists|].
    unfold push_title_shape. rewrite Hp, Href. simpl.
    unfold absent_or in *.
    destruct (payload !! "commits") as [[| | | |l|]|]; try done.
    simpl. clear. by induction l. }
  destruct (String.eqb_spec event_type "pull_request") as [->|Hpr].
  { intros [_ Hk]. by apply pull_request_title. }
  intros [[Hs _] Hk].
  destruct (sender_title event_type payload) as (rest & -> & _); try done.
  - intros ->. done.
  - by eexists.
Qed.
End Titles.

End NormalizerClaims.

Module NormalizerTheorems.
Import Py Models Processor NormalizerFacts NormalizerClaims Examples.

(** [parse_event] on the payloads whose fields have the expected types:
    it returns, with the title of [generate_title] and the defaults for the
    fields that are missing. *)
Lemma parse_event_defaults
    (repr_container : pyval → string) (uid now event_type : string)
    (payload : gmap string pyval) :
  payload_shape event_type payload = true →
  ∃ ev t,
    parse_event repr_container uid now event_type payload = Ret ev
    ∧ generate_title repr_container event_type payload = Ret t
    ∧ ev !! "title" = Some (PStr t)
    ∧ ev !! "actor"
      = Some (default (PStr "unknown") (nested payload "sender" "login"))
    ∧ ev !! "actor_avatar"
      = Some (default (PStr "") (nested payload "sender" "avatar_url"))
    ∧ ev !! "repository"
      = Some (default (PStr "unknown/unknown")
                (nested payload "repository" "full_name"))
    ∧ (branch_field event_type payload = None →
       ev !! "branch" = Some (PStr ""))
    ∧ (event_type = "push" → payload !! "commits" = None →
       ev !! "files_changed" = Some (PList [])
       ∧ ∃ d, ev !! "details" = Some (PDict d)
              ∧ d !! "commits" = Some (PInt 0))
    ∧ (event_type ≠ "push" → ev !! "files_changed" = Some (PList []))
    ∧ (known_kind event_type = false → ev !! "details" = Some (PDict ∅)).
Proof.
  intros Hshape.
  destruct (title_total repr_container _ _ Hshape) as [t Ht].
  revert Hshape. unfold payload_shape, parse_event, branch_field, known_kind.
  rewrite !andb_true_iff. intros [[Hs Hr] Hk].
  rewrite !(get_nested payload "sender"), (get_nested payload "repository") by done.
  rewrite Ht, !bind_ret.
  destruct (String.eqb_spec event_type "push") as [->|Hpush].
  { apply andb_true_iff in Hk as [[Hp Href]%andb_true_iff Hc].
    assert (∃ b, branch_of_ref (dict_get payload "ref" (PStr "")) = Ret b
                 ∧ (payload !! "ref" = None → b = PStr "")) as (b & -> & Hb).
    { unfold absent_or, dict_get in *.
      destruct (payload !! "ref") as [[| | |s| |]|]; try done;
        cbn [from_option id]; rewrite branch_of_ref_str;
        (eexists; split; [reflexivity|done]). }
    destruct (extract_files_total payload Hc) as (files & n & -> & -> & -> & Hf).
    rewrite !bind_ret. eexists _, t. split; [reflexivity|]. split; [done|].
    split; [by vm_compute|].
    split; [by vm_compute|].
    split; [by vm_compute|].
    split; [by vm_compute|].
    split; [by intros ->%Hb; vm_compute|].
    split; [|done].
    intros _ Hnone. rewrite (Hf Hnone). unfold commit_count. rewrite Hnone.
    split; [by vm_compute|].
    eexists. split; [by rewrite lookup_insert_eq|by vm_compute]. }
  destruct (String.eqb_spec event_type "pull_request") as [->|Hpr].
  { unfold absent_or, dict_get in Hk |- *.
    destruct (payload !! "pull_request") as [[| | | | |pr]|] eqn:Epr; try done;
      cbn [from_option id].
    - simpl in Hk. apply andb_true_iff in Hk as [[Hu Hh]%andb_true_iff Hb].
      simpl.
      rewrite (get_nested pr "head" "ref"), (get_nested pr "base" "ref") by done.
      rewrite !bind_ret.
      eexists _, t. split; [reflexivity|]. split; [done|].
      split; [by vm_compute|].
      split; [by vm_compute|].
      split; [by vm_compute|].
      split; [by vm_compute|].
      split; [by intros ->; vm_compute|].
      split; [done|]. split; [by vm_compute|done].
    - simpl. rewrite ?bind_ret.
      eexists _, t. split; [reflexivity|]. split; [done|].
      split; [by vm_compute|].
      split; [by vm_compute|].
      split; [by vm_compute|].
      split; [by vm_compute|].
      split; [by intros _; vm_compute|].
      split; [done|]. split; [by vm_compute|done]. }
  destruct (String.eqb_spec event_type "create") as [->|Hcreate].
  { eexists _, t. split; [reflexivity|]. split; [done|].
    split; [by vm_compute|].
    split; [by vm_compute|].
    split; [by vm_compute|].
    split; [by vm_compute|].
    split; [by unfold dict_get; simpl; intros ->; vm_compute|].
    split; [done|]. split; [by vm_compute|done]. }
  destruct (String.eqb_spec event_type "delete") as [->|Hdelete].
  { eexists _, t. split; [reflexivity|]. split; [done|].
    split; [by vm_compute|].
    split; [by vm_compute|].
    split; [by vm_compute|].
    split; [by vm_compute|].
    split; [by unfold dict_get; simpl; intros ->; vm_compute|].
    split; [done|]. split; [by vm_compute|done]. }
  destruct (String.eqb_spec event_type "issues") as [->|Hissues].
  { unfold absent_or, dict_get in Hk |- *.
    destruct (payload !! "issue") as [[| | | | |issue]|] eqn:Ei; try done;
      cbn [from_option id]; simpl; rewrite ?bind_ret;
      (eexists _, t; split; [reflexivity|]; split; [done|]);
      (split; [by vm_compute|]);
      (split; [by vm_compute|]);
      (split; [by vm_compute|]);
      (split; [by vm_compute|]);
      (split; [by intros _; vm_compute|]);
      (split; [done|]); (split; [by vm_compute|done]). }
  eexists _, t. split; [reflexivity|]. split; [done|].
  split; [by vm_compute|].
  split; [by vm_compute|].
  split; [by vm_compute|].
  split; [by vm_compute|].
  split; [by intros _; vm_compute|].
  split; [done|]. split; by intros _; vm_compute.
Qed.

(** C4 (as stated, refuted).  A payload whose [sender] is [null] makes
    [parse_event] raise: [None] has no [get]. *)
Lemma null_sender_raises :
  parse_event repr_unused "4f1c" "2024-03-01T12:00:00+00:00" "ping" null_sender
  = Raise AttributeError.
Proof. by vm_compute. Qed.

(** C4 (amended).  For every kind of event and every payload in which each
    field read is missing or has its expected JSON type, [generate_title]
    and [parse_event] return, and each missing field takes its default:
    actor [unknown], avatar empty, repository [unknown/unknown], branch
    empty, commit count 0, no files changed, empty details. *)
Theorem normalization_total_on_typed_payloads
    (repr_container : pyval → string) (uid now event_type : string)
    (payload : gmap string pyval) :
  payload_shape event_type payload = true →
  ∃ ev t,
    parse_event repr_container uid now event_type payload = Ret ev
    ∧ generate_title repr_container event_type payload = Ret t
    ∧ ev !! "title" = Some (PStr t)
    ∧ (nested payload "sender" "login" = None →
       ev !! "actor" = Some (PStr "unknown"))
    ∧ (nested payload "sender" "avatar_url" = None →
       ev !! "actor_avatar" = Some (PStr ""))
    ∧ (nested payload "repository" "full_name" = None →
       ev !! "repository" = Some (PStr "unknown/unknown"))
    ∧ (branch_field event_type payload = None →
       ev !! "branch" = Some (PStr ""))
    ∧ (event_type = "push" → payload !! "commits" = None →
       ev !! "files_changed" = Some (PList [])
       ∧ ∃ d, ev !! "details" = Some (PDict d)
              ∧ d !! "commits" = Some (PInt 0))
    ∧ (event_type ≠ "push" → ev !! "files_changed" = Some (PList []))
    ∧ (known_kind event_type = false → ev !! "details" = Some (PDict ∅)).
Proof.
  intros Hshape.
  destruct (parse_event_defaults repr_container uid now _ _ Hshape)
    as (ev & t & Hev & Ht & Htitle & Hactor & Havatar & Hrepo & Hrest).
  exists ev, t. split; [done|]. split; [done|]. split; [done|].
  split; [by intros Hnone; rewrite Hnone in Hactor|].
  split; [by intros Hnone; rewrite Hnone in Havatar|].
  split; [by intros Hnone; rewrite Hnone in Hrepo|].
  exact Hrest.
Qed.


Lemma normalization_total_on_typed_payloads_witness :
  payload_shape "push" push_without_sender = true
  ∧ ∃ ev t,
      parse_event repr_unused "4f1c" "2024-03-01T12:00:00+00:00" "push" push_without_sender
      = Ret ev
      ∧ generate_title repr_unused "push" push_without_sender = Ret t
      ∧ ev !! "title" = Some (PStr t)
      ∧ (nested push_without_sender "sender" "login" = None →
         ev !! "actor" = Some (PStr "unknown"))
      ∧ (nested push_without_sender "sender" "avatar_url" = None →
         ev !! "actor_avatar" = Some (PStr ""))
      ∧ (nested push_without_sender "repository" "full_name" = None →
         ev !! "repository" = Some (PStr "unknown/unknown"))
      ∧ (branch_field "push" push_without_sender = None →
         ev !! "branch" = Some (PStr ""))
      ∧ ("push" = "push" → push_without_sender !! "commits" = None →
         ev !! "files_changed" = Some (PList [])
         ∧ ∃ d, ev !! "details" = Some (PDict d)
                ∧ d !! "commits" = Some (PInt 0))
      ∧ ("push" ≠ "push" → ev !! "files_changed" = Some (PList []))
      ∧ (known_kind "push" = false → ev !! "details" = Some (PDict ∅)).
Proof.
  split; [by vm_compute|].
  apply (normalization_total_on_typed_payloads repr_unused
           "4f1c" "2024-03-01T12:00:00+00:00" "push" push_without_sender).
  by vm_compute.
Defined.

(** C9 (as stated, refuted).  A push of one commit is titled with the
    singular, a push of two with the plural. *)
Lemma one_commit_is_singular :
  generate_title repr_unused "push" one_commit
  = Ret "alice pushed 1 commit to main"
  ∧ generate_title repr_unused "push" two_commits
    = Ret "alice pushed 2 commits to main".
Proof. by vm_compute. Qed.

(** C9 (amended).  For every push payload with [n] commits the title is
    [{pusher} pushed {n} {noun} to {branch}], where the noun is the
    singular [commit] exactly when [n] is 1 and the plural [commits] for
    every other [n]. *)
Theorem push_title_noun
    (repr_container : pyval → string) (payload : gmap string pyval) :
  push_title_shape payload = true →
  ∃ noun,
    generate_title repr_container "push" payload
    = Ret (py_str repr_container
             (default (PStr "someone") (nested payload "pusher" "name"))
           ++ " pushed " ++ pretty (commit_count payload) ++ " " ++ noun
           ++ " to " ++ push_branch payload)
    ∧ (noun = "commit" ↔ commit_count payload = 1%nat)
    ∧ (noun = "commits" ↔ commit_count payload ≠ 1%nat).
Proof.
  intros Hshape. rewrite push_title by done.
  destruct (Nat.eqb_spec (commit_count payload) 1) as [Hn|Hn];
    eexists; (split; [reflexivity|]); split; split; done.
Qed.

Lemma push_title_noun_witness :
  push_title_shape two_commits = true
  ∧ ∃ noun,
      generate_title repr_unused "push" two_commits
      = Ret (py_str repr_unused
               (default (PStr "someone") (nested two_commits "pusher" "name"))
             ++ " pushed " ++ pretty (commit_count two_commits) ++ " " ++ noun
             ++ " to " ++ push_branch two_commits)
      ∧ (noun = "commit" ↔ commit_count two_commits = 1%nat)
      ∧ (noun = "commits" ↔ commit_count two_commits ≠ 1%nat).
Proof.
  split; [by vm_compute|].
  apply (push_title_noun repr_unused two_commits). by vm_compute.
Defined.




End NormalizerTheorems.

(* ===================================================================== *)
(** * Connections and broadcast *)
(* ===================================================================== *)

Module ManagerFacts.
Import Py Eff WebsocketManager.

Lemma filter_ext_in {A} (P Q : A → Prop) `{!∀ x, Decision (P x)}
    `{!∀ x, Decision (Q x)} (l : list A) :
  (∀ x, x ∈ l → P x ↔ Q x) → filter P l = filter Q l.
Proof.
  induction l as [|x l IH]; intros Hext; [done|].
  rewrite !filter_cons. rewrite IH by (intros y Hy; apply Hext; by right).
  destruct (decide (P x)) as [HP|HP], (decide (Q x)) as [HQ|HQ]; try done;
    exfalso; apply (Hext x) in HP || apply (Hext x) in HQ; try done; by left.
Qed.

Section Network.
Variable link : WebSocket → nat → bool.

Abbreviation next_send := (WebsocketManager.next_send link).
Abbreviation sent_to := (WebsocketManager.sent_to link).

Lemma extend_nil w : extend w [] = w.
Proof. destruct w. unfold extend. simpl. by rewrite app_nil_r. Qed.

Lemma extend_extend w l1 l2 : extend (extend w l1) l2 = extend w (l1 ++ l2).
Proof. unfold extend. simpl. by rewrite app_assoc. Qed.

Lemma send_unfold ws f w :
  send link ws f w
  = (if next_send w ws then Ret tt else Raise (IOError "send"),
     extend w [sent_to w f ws]).
Proof. done. Qed.

Lemma attempts_on_app ws l1 l2 :
  attempts_on ws (l1 ++ l2) = (attempts_on ws l1 + attempts_on ws l2)%nat.
Proof. unfold attempts_on. by rewrite filter_app, length_app. Qed.

(** A send to another connection does not change what [ws] will get. *)
Lemma next_send_other w f ws ws' :
  ws ≠ ws' → next_send (extend w [sent_to w f ws']) ws = next_send w ws.
Proof.
  intros Hne. unfold next_send, extend. simpl. rewrite attempts_on_app.
  unfold attempts_on at 2. simpl.
  rewrite filter_cons_False by (simpl; congruence).
  simpl. by rewrite Nat.add_0_r.
Qed.

(** ** The seed loop *)


(** ** The two loops of [broadcast] *)

Lemma deliver_spec message conns : ∀ dead w,
  NoDup conns →
  deliver link message conns dead w
  = (Ret (dead ++ filter (λ ws, next_send w ws = false) conns)%list,
     extend w (sent_to w (TextFrame message) <$> conns)).
Proof.
  induction conns as [|ws conns IH]; intros dead w Hnd.
  { simpl. unfold ret. by rewrite extend_nil, app_nil_r. }
  apply NoDup_cons in Hnd as [Hnotin Hnd].
  simpl. unfold bind at 1, try_except, bind at 1, send_text.
  rewrite send_unfold.
  set (w1 := extend w [sent_to w (TextFrame message) ws]).
  assert (Hsame : ∀ ws', ws' ∈ conns → next_send w1 ws' = next_send w ws').
  { intros ws' Hin. apply next_send_other. intros ->. done. }
  assert (Hmap : sent_to w1 (TextFrame message) <$> conns
                 = sent_to w (TextFrame message) <$> conns).
  { apply list_fmap_ext. intros i ws' Hi. unfold sent_to.
    rewrite Hsame; [done|]. by eapply list_elem_of_lookup_2. }
  assert (Hfilter : filter (λ ws', next_send w1 ws' = false) conns
                    = filter (λ ws', next_send w ws' = false) conns).
  { apply filter_ext_in. intros ws' Hin. by rewrite Hsame. }
  destruct (next_send w ws) eqn:Hok; simpl; unfold ret;
    rewrite IH by done; rewrite Hmap, Hfilter; unfold w1;
    rewrite extend_extend.
  - rewrite filter_cons_False by (rewrite Hok; done). done.
  - rewrite filter_cons_True by done. by rewrite <- app_assoc.
Qed.

Lemma prune_spec dead : ∀ w,
  prune dead w
  = (Ret tt, {| _active_connections := _active_connections w ∖ list_to_set dead;
                wire := wire w |}).
Proof.
  induction dead as [|ws dead IH]; intros w; simpl.
  { unfold ret. destruct w. simpl. f_equal. f_equal. set_solver. }
  unfold bind, discard, modify. rewrite IH. simpl. f_equal. f_equal.
  set_solver.
Qed.

(** [broadcast] as one step: a send to each active connection, and the
    removal of those whose send failed. *)
Lemma broadcast_spec message w :
  broadcast link message w
  = (Ret tt,
     {| _active_connections :=
          _active_connections w
          ∖ list_to_set (filter (λ ws, next_send w ws = false)
                           (elements (_active_connections w)));
        wire := (wire w ++ (sent_to w (TextFrame message)
                            <$> elements (_active_connections w)))%list |}).
Proof.
  unfold broadcast, bind at 1, gets, bind at 1.
  rewrite deliver_spec by apply NoDup_elements. by rewrite prune_spec.
Qed.
End Network.

End ManagerFacts.

Module ManagerTheorems.
Import Py Eff WebsocketManager ManagerFacts Examples.





End ManagerTheorems.

(* ===================================================================== *)
(** * The retry policy and the recent-events list *)
(* ===================================================================== *)

Module RetryFacts.
Import Py Eff Models RedisClient.

Section Retry.
Context {A : Type}.
Variable op : M World A.
Variable delay : Z.

(** The loop from attempt [i] on, with [k + 1] attempts left, does what
    the policy says for [k + 1] attempts. *)
Lemma retry_loop_policy (retries k : nat) : ∀ i last w,
  (i + S k = retries)%nat →
  retry_loop op retries delay (seq i (S k)) last w
  = policy op delay (S k) w.
Proof.
  induction k as [|k IH]; intros i last w Hi.
  - simpl. unfold bind at 1, try_except, bind at 1.
    destruct (op w) as [[a|exc] w']; simpl; [done|].
    unfold bind, ret.
    destruct (Z.ltb_spec (Z.of_nat i) (Z.of_nat retries - 1)); [lia|done].
  - change (seq i (S (S k))) with (i :: seq (S i) (S k)).
    cbn [retry_loop policy]. unfold bind at 1, try_except, bind at 1.
    destruct (op w) as [[a|exc] w']; [done|].
    unfold ret at 1. cbn beta iota. unfold bind at 1.
    destruct (Z.ltb_spec (Z.of_nat i) (Z.of_nat retries - 1)); [|lia].
    unfold sleep, modify. apply IH. lia.
Qed.

Lemma retry_policy (n : nat) (w : World) :
  _retry op (S n) delay w = policy op delay (S n) w.
Proof. unfold _retry. by apply retry_loop_policy. Qed.

(** An operation that succeeds at once is run once. *)
Lemma retry_first_success (n : nat) (w w' : World) (a : A) :
  op w = (Ret a, w') → _retry op (S n) delay w = (Ret a, w').
Proof.
  intros Hop. rewrite retry_policy. destruct n; simpl; by rewrite Hop.
Qed.
End Retry.

Lemma policy_three {A} (op : M World A) (w : World) :
  policy op default_delay default_retries w = three_attempts op w.
Proof. done. Qed.

End RetryFacts.

Module RetryTheorems.
Import Py Eff Models RedisClient RetryFacts.

(** C5.  [publish_event], [get_recent_events] and [get_stats] each run
    their backend operation under the policy of three attempts one second
    apart: the result of the first attempt that succeeds is returned, a
    sleep of one second separates a failed attempt from the next, and after
    three failures the third failure is the one raised. *)
Theorem store_operations_retry_three_times
    (json_dumps : gmap string pyval → string)
    (json_loads : string → outcome pyval)
    (fromisoformat : string → option datetime)
    (event : gmap string pyval) (count : Z) (w : World) :
  publish_event json_dumps event w
  = three_attempts (publish_do (json_dumps event)) w
  ∧ get_recent_events json_loads count w
    = three_attempts (recent_do json_loads count) w
  ∧ get_stats json_loads fromisoformat w
    = three_attempts (stats_do json_loads fromisoformat) w.
Proof.
  unfold publish_event, get_recent_events, get_stats.
  rewrite !(retry_policy _ _ 2). by rewrite !policy_three.
Qed.

(** Two lost requests: the third attempt appends the event, after two
    sleeps of one second. *)
Example publish_survives_two_lost_requests :
  ∃ w,
    publish_event Examples.id_dumps Examples.seed_1 Examples.flaky_store
    = (Ret tt, w)
    ∧ stored w = ["1"]
    ∧ published (server w) = [(CHANNEL_NAME, "1")]
    ∧ faults w = []
    ∧ slept w = [1000000; 1000000]
    ∧ clock w = clock Examples.flaky_store + 2000000.
Proof. eexists. split; [reflexivity|]. by vm_compute. Qed.

End RetryTheorems.

Module StoreFacts.
Import Py Eff Models RedisClient RetryFacts.

(** ** Ranges *)

(** From index 0 to a stop that is not negative, the range is a prefix. *)
Lemma redis_range_prefix (l : list string) (n : Z) :
  1 ≤ n → redis_range l 0 (n - 1) = take (Z.to_nat n) l.
Proof.
  intros Hn. unfold redis_range.
  assert (E0 : (0 <? 0) = false) by done.
  assert (E1 : (n - 1 <? 0) = false) by lia.
  cbv zeta. rewrite E0. cbv iota. rewrite E0, E1. cbv iota. rewrite E1.
  change (Z.to_nat 0) with 0%nat. rewrite drop_0.
  destruct (Z.leb_spec (Z.of_nat (length l)) 0) as [Hlen|Hlen]; simpl.
  { destruct l; [by rewrite take_nil|simpl in Hlen; lia]. }
  destruct (Z.leb_spec (Z.of_nat (length l)) (n - 1)) as [Hge|Hlt].
  - rewrite !take_ge; [done|lia..].
  - f_equal. lia.
Qed.

(** From index 0 to index -1, the range is the whole list. *)
Lemma redis_range_all (l : list string) : redis_range l 0 (-1) = l.
Proof.
  unfold redis_range.
  assert (E0 : (0 <? 0) = false) by done.
  assert (E1 : (-1 <? 0) = true) by done.
  cbv zeta. rewrite E0. cbv iota. rewrite E0, E1. cbv iota.
  change (Z.to_nat 0) with 0%nat. rewrite drop_0.
  destruct l as [|x l]; [done|].
  assert (E2 : (Z.of_nat (length (x :: l)) + -1 <? 0) = false)
    by (apply Z.ltb_ge; simpl length; lia).
  assert (E3 : (Z.of_nat (length (x :: l)) <=? 0) = false)
    by (apply Z.leb_gt; simpl length; lia).
  assert (E4 : (Z.of_nat (length (x :: l))
                <=? Z.of_nat (length (x :: l)) + -1) = false)
    by (apply Z.leb_gt; lia).
  rewrite E2, E3, E4. cbn [orb]. apply take_ge. lia.
Qed.

Lemma take_app_take {A} (n : nat) (a b : list A) :
  take n (a ++ take n b) = take n (a ++ b).
Proof.
  revert n. induction a as [|x a IH]; intros n; simpl.
  - apply take_idemp.
  - destruct n as [|n]; [done|]. simpl. f_equal.
    destruct (decide (length a ≤ n))%nat as [Hle|Hgt].
    + rewrite !take_app_ge by done. f_equal.
      rewrite take_take. f_equal. lia.
    + rewrite !take_app_le by lia. done.
Qed.

(** ** Round trips without faults *)

Lemma with_server_id (w : World) :
  faults w = [] → with_server w (server w) [] = w.
Proof. destruct w. simpl. by intros ->. Qed.

Lemma list_at_publish (r : Redis) (channel message key : string) :
  list_at (apply_command r (PUBLISH channel message)) key = list_at r key.
Proof. done. Qed.

Lemma list_at_lpush (r : Redis) (key value : string) :
  list_at (apply_command r (LPUSH key value)) key = value :: list_at r key.
Proof. unfold list_at at 1. simpl. by rewrite lookup_insert_eq. Qed.

Lemma list_at_ltrim (r : Redis) (key : string) (start stop : Z) :
  list_at (apply_command r (LTRIM key start stop)) key
  = redis_range (list_at r key) start stop.
Proof. unfold list_at at 1. simpl. by rewrite lookup_insert_eq. Qed.

Lemma mapM_roundtrip (json_dumps : gmap string pyval → string)
    (json_loads : string → outcome pyval) (events : list (gmap string pyval)) :
  Forall (λ e, json_loads (json_dumps e) = Ret (PDict e)) events →
  mapM json_loads (json_dumps <$> events) = Ret (PDict <$> events).
Proof.
  induction 1 as [|e events He _ IH]; [done|].
  change (mapM json_loads (json_dumps <$> e :: events))
    with (y ← json_loads (json_dumps e);
          k ← mapM json_loads (json_dumps <$> events); mret (y :: k)).
  by rewrite He, IH.
Qed.

Section Quiet.
Variable json_dumps : gmap string pyval → string.
Variable json_loads : string → outcome pyval.

Lemma publish_event_quiet (event : gmap string pyval) (w : World) :
  faults w = [] →
  ∃ w',
    publish_event json_dumps event w = (Ret tt, w')
    ∧ faults w' = []
    ∧ stored w' = take 100 (json_dumps event :: stored w).
Proof.
  intros Hq. unfold publish_event. eexists. split.
  { apply retry_first_success. unfold publish_do, execute, round_trip.
    by rewrite Hq. }
  split; [done|]. unfold stored. cbn [server with_server fold_left].
  rewrite list_at_ltrim, list_at_lpush, list_at_publish.
  by rewrite (redis_range_prefix _ 100).
Qed.

Lemma publish_all_quiet (events : list (gmap string pyval)) : ∀ w,
  faults w = [] → (length (stored w) ≤ 100)%nat →
  ∃ w',
    publish_all json_dumps events w = (Ret tt, w')
    ∧ faults w' = []
    ∧ stored w' = take 100 (reverse (json_dumps <$> events) ++ stored w).
Proof.
  induction events as [|event events IH]; intros w Hq Hlen.
  { exists w. split; [done|]. split; [done|]. simpl. by rewrite take_ge. }
  destruct (publish_event_quiet event w Hq) as (w1 & Hpub & Hq1 & Hst1).
  destruct (IH w1 Hq1) as (w2 & Hall & Hq2 & Hst2).
  { rewrite Hst1, length_take. lia. }
  exists w2. split.
  { cbn [publish_all]. unfold bind. by rewrite Hpub. }
  split; [done|].
  rewrite Hst2, Hst1, take_app_take, fmap_cons, reverse_cons.
  by rewrite <- app_assoc.
Qed.

(** Reading the [count] most recent events, for a [count] of at least
    one. *)
Lemma get_recent_events_quiet (count : Z) (w : World) (events : list pyval) :
  faults w = [] → 1 ≤ count →
  mapM json_loads (take (Z.to_nat count) (stored w)) = Ret events →
  get_recent_events json_loads count w = (Ret events, w).
Proof.
  intros Hq Hcount Hloads. unfold get_recent_events.
  apply retry_first_success.
  unfold recent_do, bind, lrange, round_trip, lift. rewrite Hq.
  rewrite with_server_id by done.
  fold (stored w). by rewrite redis_range_prefix, Hloads.
Qed.

(** Reading with a [count] of zero: the range runs to index -1, the end
    of the list. *)
Lemma get_recent_events_zero (w : World) (events : list pyval) :
  faults w = [] →
  mapM json_loads (stored w) = Ret events →
  get_recent_events json_loads 0 w = (Ret events, w).
Proof.
  intros Hq Hloads. unfold get_recent_events.
  apply retry_first_success.
  unfold recent_do, bind, lrange, round_trip, lift. rewrite Hq.
  rewrite with_server_id by done.
  fold (stored w). change (0 - 1) with (-1).
  by rewrite redis_range_all, Hloads.
Qed.

(** After appending [events] to an empty store, a read of [count ≥ 1]
    events returns the [min count 100] last appended, newest first. *)
Lemma recent_after_appends (events : list (gmap string pyval)) (count : Z)
    (w : World) :
  faults w = [] → stored w = [] → 1 ≤ count →
  Forall (λ e, json_loads (json_dumps e) = Ret (PDict e)) events →
  ∃ w',
    publish_all json_dumps events w = (Ret tt, w')
    ∧ get_recent_events json_loads count w'
      = (Ret (PDict <$> take (Z.to_nat (Z.min count 100)) (reverse events)),
         w').
Proof.
  intros Hq Hempty Hcount Hcodec.
  destruct (publish_all_quiet events w Hq) as (w' & Hall & Hq' & Hst).
  { rewrite Hempty. simpl. lia. }
  exists w'. split; [done|].
  apply get_recent_events_quiet; [done..|].
  rewrite Hst, Hempty, app_nil_r, take_take, <- fmap_reverse, <- fmap_take.
  replace (Z.to_nat count `min` 100)%nat with (Z.to_nat (Z.min count 100))
    by lia.
  apply mapM_roundtrip. apply Forall_take. by apply Forall_reverse.
Qed.
End Quiet.

End StoreFacts.

Module StoreTheorems.
Import Py Eff Models RedisClient RetryFacts StoreFacts Examples.

(** For a count of at least one the bound of the specification holds:
    after any sequence of appends to an empty store, the read returns at
    most [min count 100] events, the last appended first. *)
Lemma recent_bounded_from_one
    (json_dumps : gmap string pyval → string)
    (json_loads : string → outcome pyval)
    (events : list (gmap string pyval)) (count : Z) (w : World) :
  faults w = [] → stored w = [] → 1 ≤ count →
  Forall (λ e, json_loads (json_dumps e) = Ret (PDict e)) events →
  ∃ w' recent,
    publish_all json_dumps events w = (Ret tt, w')
    ∧ get_recent_events json_loads count w' = (Ret (PDict <$> recent), w')
    ∧ recent `prefix_of` reverse events
    ∧ Z.of_nat (length recent) ≤ Z.min count 100.
Proof.
  intros Hq Hempty Hcount Hcodec.
  destruct (recent_after_appends json_dumps json_loads events count w)
    as (w' & Hall & Hget); try done.
  exists w', (take (Z.to_nat (Z.min count 100)) (reverse events)).
  split; [done|]. split; [done|]. split; [apply prefix_take|].
  rewrite length_take. lia.
Qed.

(** The capacity scenario: after 105 appends, a read of 100 returns the
    100 last appended, newest first; the five oldest are gone. *)
Lemma capacity_scenario
    (json_dumps : gmap string pyval → string)
    (json_loads : string → outcome pyval)
    (events : list (gmap string pyval)) (w : World) :
  faults w = [] → stored w = [] → length events = 105%nat →
  Forall (λ e, json_loads (json_dumps e) = Ret (PDict e)) events →
  ∃ w',
    publish_all json_dumps events w = (Ret tt, w')
    ∧ get_recent_events json_loads 100 w'
      = (Ret (PDict <$> reverse (drop 5 events)), w')
    ∧ length (reverse (drop 5 events)) = 100%nat.
Proof.
  intros Hq Hempty Hlen Hcodec.
  destruct (recent_after_appends json_dumps json_loads events 100 w)
    as (w' & Hall & Hget); try done.
  exists w'. split; [done|].
  change (Z.to_nat (Z.min 100 100)) with 100%nat in Hget.
  rewrite take_reverse, Hlen in Hget. split; [done|].
  by rewrite length_reverse, length_drop, Hlen.
Qed.

(** C6 (the code at the failing input).  With two events in the store, a
    read of zero events returns both: [lrange(key, 0, count - 1)] is asked
    for the range from 0 to -1, which is the whole list. *)
Theorem recent_zero_returns_everything :
  ∃ w,
    publish_all id_dumps [seed_1; seed_2] quiet_store = (Ret tt, w)
    ∧ get_recent_events id_loads 0 w = (Ret [PDict seed_2; PDict seed_1], w).
Proof.
  destruct (publish_all_quiet id_dumps [seed_1; seed_2] quiet_store)
    as (w & Hall & Hq & Hst); [done|vm_compute; lia|].
  exists w. split; [done|].
  apply get_recent_events_zero; [done|]. by rewrite Hst.
Qed.

End StoreTheorems.

(* ===================================================================== *)
(** * More on normalisation *)
(* ===================================================================== *)

Module NormalizerExtras.
Import Py Models Processor OrderFacts NormalizerFacts NormalizerClaims.

(** ** The branch of a push *)

Lemma append_assoc (a b c : string) :
  ((a ++ b) ++ c)%string = (a ++ (b ++ c))%string.
Proof. induction a as [|x a IH]; [done|]. by rewrite !append_cons, IH. Qed.

Lemma has_slash_append (a b : string) :
  has_slash (a ++ b)%string = (has_slash a || has_slash b)%bool.
Proof.
  induction a as [|x a IH]; [done|].
  rewrite append_cons, !has_slash_cons, IH. by rewrite orb_assoc.
Qed.

Lemma after_last_slash_spec (s : string) : ∀ acc,
  has_slash acc = false →
  has_slash (after_last_slash s acc) = false
  ∧ ∃ prefix,
      (acc ++ s)%string = (prefix ++ after_last_slash s acc)%string
      ∧ (if has_slash s then ∃ p, prefix = (p ++ "/")%string else prefix = "").
Proof.
  induction s as [|c s IH]; intros acc Hacc.
  { simpl. split; [done|]. exists "". by rewrite append_nil_r. }
  rewrite has_slash_cons. simpl.
  destruct (Ascii.eqb_spec c "/"%char) as [->|Hc]; simpl.
  - destruct (IH "" eq_refl) as (Hno & prefix & Heq & Hpre).
    split; [done|]. exists (acc ++ "/" ++ prefix)%string. split.
    + rewrite !append_assoc. f_equal. change ("/" ++ ?x)%string with (String "/" x).
      f_equal. exact Heq.
    + destruct (has_slash s).
      * destruct Hpre as [p ->]. exists (acc ++ "/" ++ p)%string.
        by rewrite !append_assoc.
      * subst prefix. exists acc. done.
  - destruct (IH (acc ++ String c "")%string) as (Hno & prefix & Heq & Hpre).
    { rewrite has_slash_append, Hacc, has_slash_cons. simpl.
      by destruct (Ascii.eqb_spec c "/"%char). }
    split; [done|]. exists prefix. split; [|done].
    by rewrite <- Heq, append_snoc.
Qed.

(** X1.  The branch of a push is what follows the last slash of the ref:
    it contains no slash, the ref ends with it, and what precedes it is
    empty or ends with a slash.  A ref such as
    [refs/heads/feature/auth] therefore yields [auth]. *)
Theorem push_branch_has_no_slash (ref : string) :
  ∃ branch prefix,
    branch_of_ref (PStr ref) = Ret (PStr branch)
    ∧ has_slash branch = false
    ∧ ref = (prefix ++ branch)%string
    ∧ (if has_slash ref then ∃ p, prefix = (p ++ "/")%string else prefix = "").
Proof.
  destruct (after_last_slash_spec ref "" eq_refl) as (Hno & prefix & Heq & Hpre).
  exists (last_segment ref), prefix. by rewrite branch_of_ref_str.
Qed.

(** ** The files of a push *)

Lemma forallb_is_str_elem (s : list pyval) (v : pyval) :
  forallb is_str s = true → v ∈ s → is_str v = true.
Proof.
  intros Hs Hv. rewrite forallb_forall in Hs. apply Hs. by apply list_elem_of_In.
Qed.

Lemma atom_eq_str (x y : pyval) :
  is_str x = true → is_str y = true → atom_eq x y = true ↔ x = y.
Proof.
  destruct x, y; try done. simpl. intros _ _. rewrite String.eqb_eq.
  split; congruence.
Qed.

Lemma set_add_spec (x : pyval) (s : list pyval) :
  is_str x = true → str_set s →
  str_set (set_add x s) ∧ ∀ v, v ∈ set_add x s ↔ v ∈ s ∨ v = x.
Proof.
  intros Hx [Hs Hnd]. unfold set_add.
  destruct (existsb (atom_eq x) s) eqn:Hex.
  - split; [done|]. intros v. split; [by left|]. intros [?| ->]; [done|].
    apply existsb_exists in Hex as (y & Hy & Heq).
    apply list_elem_of_In in Hy.
    apply atom_eq_str in Heq as ->; [done..|]. by eapply forallb_is_str_elem.
  - assert (Hnot : x ∉ s).
    { intros Hin. apply Bool.not_true_iff_false in Hex. apply Hex.
      apply existsb_exists. exists x. split; [by apply list_elem_of_In|].
      by apply atom_eq_str. }
    split.
    + split; [by rewrite forallb_app, Hs; simpl; rewrite Hx|].
      apply NoDup_app. split; [done|]. split; [|apply NoDup_singleton].
      intros y Hy ->%list_elem_of_singleton. done.
    + intros v. by rewrite elem_of_app, list_elem_of_singleton.
Qed.

Lemma set_update_fold_spec (l : list pyval) : ∀ s,
  forallb is_str l = true → str_set s →
  ∃ s',
    fold_left (λ (acc : outcome (list pyval)) (x : pyval),
                 s0 ← acc;
                 if py_hashable x then Ret (set_add x s0) else Raise TypeError)
      l (Ret s) = Ret s'
    ∧ str_set s' ∧ ∀ v, v ∈ s' ↔ v ∈ s ∨ v ∈ l.
Proof.
  induction l as [|x l IH]; intros s Hl Hs; cbn [fold_left].
  { exists s. split; [done|]. split; [done|]. intros v.
    rewrite elem_of_nil. naive_solver. }
  simpl in Hl. apply andb_true_iff in Hl as [Hx Hl].
  rewrite bind_ret, is_str_hashable by done.
  destruct (set_add_spec x s Hx Hs) as [Hs1 Hin1].
  destruct (IH (set_add x s) Hl Hs1) as (s' & -> & Hs' & Hin').
  exists s'. split; [done|]. split; [done|]. intros v.
  rewrite Hin', Hin1, elem_of_cons. naive_solver.
Qed.

Lemma set_update_spec (l : list pyval) (s : list pyval) :
  forallb is_str l = true → str_set s →
  ∃ s', set_update s (PList l) = Ret s' ∧ str_set s'
        ∧ ∀ v, v ∈ s' ↔ v ∈ s ∨ v ∈ l.
Proof.
  intros Hl Hs. unfold set_update. cbn [py_iter]. rewrite bind_ret.
  by apply set_update_fold_spec.
Qed.

Lemma set_update_listed (c : gmap string pyval) (key : string) (s : list pyval) :
  absent_or (is_list_of is_str) c key = true → str_set s →
  ∃ s', set_update s (dict_get c key (PList [])) = Ret s' ∧ str_set s'
        ∧ ∀ v, v ∈ s' ↔ v ∈ s ∨ v ∈ listed (PDict c) key.
Proof.
  unfold absent_or, dict_get, listed.
  destruct (c !! key) as [[| | | |l|]|]; simpl; try done.
  - intros Hl Hs. by apply set_update_spec.
  - intros _ Hs. by apply (set_update_spec []).
Qed.

Lemma add_commit_files_spec (commit : pyval) (s : list pyval) :
  commit_shape commit = true → str_set s →
  ∃ s', add_commit_files s commit = Ret s' ∧ str_set s'
        ∧ ∀ v, v ∈ s' ↔ v ∈ s ∨ v ∈ commit_paths commit.
Proof.
  destruct commit as [| | | | |c]; try done. simpl.
  rewrite !andb_true_iff. intros [[Ha Hm] Hr] Hs.
  unfold add_commit_files. cbn [py_get]. rewrite bind_ret.
  destruct (set_update_listed c "added" s Ha Hs) as (s1 & -> & Hs1 & Hin1).
  rewrite bind_ret. cbn [py_get]. rewrite bind_ret.
  destruct (set_update_listed c "modified" s1 Hm Hs1) as (s2 & -> & Hs2 & Hin2).
  rewrite bind_ret. cbn [py_get]. rewrite bind_ret.
  destruct (set_update_listed c "removed" s2 Hr Hs2) as (s3 & -> & Hs3 & Hin3).
  exists s3. split; [done|]. split; [done|]. intros v.
  unfold commit_paths. rewrite Hin3, Hin2, Hin1, !elem_of_app. naive_solver.
Qed.

Lemma collect_files_spec (commits : list pyval) : ∀ s,
  forallb commit_shape commits = true → str_set s →
  ∃ s', collect_files s commits = Ret s' ∧ str_set s'
        ∧ ∀ v, v ∈ s' ↔ v ∈ s ∨ v ∈ concat (commit_paths <$> commits).
Proof.
  induction commits as [|c commits IH]; intros s Hc Hs; simpl.
  { exists s. split; [done|]. split; [done|]. intros v.
    rewrite elem_of_nil. naive_solver. }
  simpl in Hc. apply andb_true_iff in Hc as [Hc Hcs].
  destruct (add_commit_files_spec c s Hc Hs) as (s1 & -> & Hs1 & Hin1).
  rewrite bind_ret.
  destruct (IH s1 Hcs Hs1) as (s' & -> & Hs' & Hin').
  exists s'. split; [done|]. split; [done|]. intros v.
  rewrite Hin', Hin1, elem_of_app. naive_solver.
Qed.

#[export] Instance atom_le_total : Total atom_le.
Proof.
  intros a b. unfold atom_le.
  destruct a, b; simpl; auto; try (apply str_le_total);
    repeat match goal with |- context [if ?b then _ else _] => destruct b end;
    lia.
Qed.

(** A list of strings as a list of values. *)
Lemma strs_names (s : list pyval) :
  forallb is_str s = true → ∃ names, s = PStr <$> names.
Proof.
  induction s as [|v s IH]; simpl; [by exists []|].
  intros [Hv Hs]%andb_true_iff. destruct (IH Hs) as [names ->].
  destruct v; try done. by eexists (_ :: names).
Qed.

Lemma sorted_names (names : list string) :
  Sorted atom_le (PStr <$> names) → StronglySorted str_le names.
Proof.
  intros Hs. apply Sorted_StronglySorted; [apply _|].
  induction names as [|x names IH]; [constructor|].
  inversion Hs as [|? ? Hs' Hhd]; subst. constructor; [by apply IH|].
  destruct names; [constructor|]. inversion Hhd; subst. by constructor.
Qed.

Lemma py_sorted_spec (s : list pyval) :
  str_set s →
  ∃ names, py_sorted s = Ret (PStr <$> names)
           ∧ StronglySorted str_le names ∧ NoDup names
           ∧ ∀ f, f ∈ names ↔ PStr f ∈ s.
Proof.
  intros [Hs Hnd].
  assert (Hsorted : ∃ l, py_sorted s = Ret l ∧ l ≡ₚ s ∧ Sorted atom_le l).
  { unfold py_sorted. destruct s as [|x [|y s]].
    - exists []. repeat split; constructor.
    - exists [x]. repeat split; repeat constructor.
    - rewrite Hs. simpl. eexists. split; [done|].
      split; [apply merge_sort_Permutation|apply Sorted_merge_sort, _]. }
  destruct Hsorted as (l & -> & Hperm & Hsort).
  destruct (strs_names l) as [names ->].
  { apply forallb_forall. intros v Hv%list_elem_of_In. rewrite Hperm in Hv.
    by eapply forallb_is_str_elem. }
  exists names. split; [done|]. split; [by apply sorted_names|].
  split.
  - rewrite <- Hperm in Hnd. by apply (NoDup_fmap_1 PStr).
  - intros f. rewrite <- Hperm. rewrite list_elem_of_fmap. split.
    + intros Hf. by exists f.
    + intros (g & [= ->] & Hg). done.
Qed.

(** X2.  For a push whose commits list their paths as strings, the files
    changed are the paths listed under [added], [modified] and [removed] of
    all commits, each once, in sorted order. *)
Theorem files_changed_sorted_distinct (payload : gmap string pyval) :
  absent_or (is_list_of commit_shape) payload "commits" = true →
  ∃ names,
    _extract_files_changed payload = Ret (PStr <$> names)
    ∧ StronglySorted str_le names
    ∧ NoDup names
    ∧ ∀ f, f ∈ names ↔ PStr f ∈ pushed_paths payload.
Proof.
  intros Hshape.
  assert (Hcollect : ∃ s, (commits ← py_iter (dict_get payload "commits" (PList []));
                           collect_files [] commits) = Ret s
                          ∧ str_set s
                          ∧ ∀ v, v ∈ s ↔ v ∈ pushed_paths payload).
  { unfold absent_or, dict_get, pushed_paths in *.
    destruct (payload !! "commits") as [[| | | |l|]|]; simpl; try done.
    - rewrite ?bind_ret.
      destruct (collect_files_spec l []) as (s & -> & Hs & Hin);
        [done|by split; [|constructor]|].
      exists s. split; [done|]. split; [done|]. intros v. rewrite Hin.
      rewrite elem_of_nil. naive_solver.
    - exists []. split; [done|]. by split; [split; [|constructor]|]. }
  destruct Hcollect as (s & Hrun & Hs & Hin).
  destruct (py_sorted_spec s Hs) as (names & Hsorted & Hstrong & Hnd & Hmem).
  exists names. split.
  - unfold _extract_files_changed.
    destruct (py_iter (dict_get payload "commits" (PList []))) as [commits|];
      [|done].
    rewrite bind_ret in Hrun |- *. by rewrite Hrun, bind_ret.
  - split; [done|]. split; [done|]. intros f. by rewrite Hmem, Hin.
Qed.

(** ** Pull requests and branch events *)

Lemma dict_get_pr (payload : gmap string pyval) :
  absent_or pull_request_shape payload "pull_request" = true →
  dict_get payload "pull_request" empty_dict = PDict (pr_of payload)
  ∧ absent_or is_dict (pr_of payload) "user" = true
  ∧ absent_or is_dict (pr_of payload) "head" = true
  ∧ absent_or is_dict (pr_of payload) "base" = true.
Proof.
  unfold absent_or at 1, dict_get, pr_of, pull_request_shape.
  destruct (payload !! "pull_request") as [[| | | | |pr]|]; simpl; try done.
  by rewrite !andb_true_iff; intros [[? ?] ?].
Qed.

Lemma merged_of_pr (payload : gmap string pyval) :
  absent_or pull_request_shape payload "pull_request" = true →
  default (PBool false) (nested payload "pull_request" "merged")
  = dict_get (pr_of payload) "merged" (PBool false).
Proof.
  unfold absent_or, nested, pr_of, dict_get.
  by destruct (payload !! "pull_request") as [[]|].
Qed.

(** X3.  A pull-request event is reclassified as [merge] exactly when the
    payload says closed and merged, and the title is then the merge title;
    otherwise the type stays [pull_request] and the title is the update
    title.  The branch is the ref of the head. *)
Theorem pull_request_merge_and_title
    (repr_container : pyval → string) (uid now : string)
    (payload : gmap string pyval) :
  payload_shape "pull_request" payload = true →
  let pr := pr_of payload in
  let user := py_str repr_container
                (default (PStr "someone") (nested pr "user" "login")) in
  let number := py_str repr_container (dict_get pr "number" (PStr "?")) in
  ∃ ev,
    parse_event repr_container uid now "pull_request" payload = Ret ev
    ∧ ev !! "branch" = Some (default (PStr "") (nested pr "head" "ref"))
    ∧ if closed_and_merged payload then
        ev !! "event_type" = Some (PStr "merge")
        ∧ ev !! "title"
          = Some (PStr (user ++ " merged pull request #" ++ number ++ " into "
                        ++ py_str repr_container
                             (default (PStr "main") (nested pr "base" "ref"))))
      else
        ev !! "event_type" = Some (PStr "pull_request")
        ∧ ev !! "title"
          = Some (PStr (user ++ " "
                        ++ py_str repr_container
                             (dict_get payload "action" (PStr "updated"))
                        ++ " PR #" ++ number ++ ": "
                        ++ py_str repr_container (dict_get pr "title" (PStr "")))).
Proof.
  intros Hshape pr user number. revert Hshape. subst pr user number.
  unfold payload_shape. simpl. rewrite !andb_true_iff. intros [[Hs Hr] Hpr].
  destruct (dict_get_pr payload Hpr) as (Hget & Hu & Hh & Hb).
  unfold parse_event, generate_title, closed_and_merged. simpl.
  rewrite !(get_nested payload "sender"), (get_nested payload "repository")
    by done.
  rewrite (merged_of_pr payload Hpr). rewrite !bind_ret, Hget. cbn [py_get].
  rewrite !bind_ret.
  rewrite (get_nested (pr_of payload) "user" "login") by done.
  rewrite !bind_ret.
  assert (Hact : py_eq_str (dict_get payload "action" (PStr "updated")) "closed"
                 = py_eq_str (dict_get payload "action" (PStr "")) "closed").
  { unfold dict_get. by destruct (payload !! "action"). }
  rewrite Hact.
  destruct (py_eq_str (dict_get payload "action" (PStr "")) "closed"
            && py_truthy (dict_get (pr_of payload) "merged" (PBool false)))%bool
    eqn:Hcm.
  - repeat first
      [ rewrite bind_ret
      | rewrite (get_nested (pr_of payload) "head" "ref") by done
      | rewrite (get_nested (pr_of payload) "base" "ref") by done ].
    rewrite ?Hcm. eexists. split; [reflexivity|]. split; [by vm_compute|].
    split; by vm_compute.
  - repeat first
      [ rewrite bind_ret
      | rewrite (get_nested (pr_of payload) "head" "ref") by done
      | rewrite (get_nested (pr_of payload) "base" "ref") by done ].
    rewrite ?Hcm. eexists. split; [reflexivity|]. split; [by vm_compute|].
    split; by vm_compute.
Qed.

(** X4.  A [create] or [delete] event becomes [branch_create] or
    [branch_delete]; its branch is the ref of the payload as it stands
    (no cut at a slash, empty when missing), its title names the sender,
    the kind of ref and the ref, and its details hold the kind of ref. *)
Theorem branch_event_keeps_the_ref
    (repr_container : pyval → string) (uid now : string)
    (payload : gmap string pyval) (created : bool) :
  absent_or is_dict payload "sender" = true →
  absent_or is_dict payload "repository" = true →
  ∃ ev,
    parse_event repr_container uid now (if created then "create" else "delete")
      payload = Ret ev
    ∧ ev !! "event_type"
      = Some (PStr (if created then "branch_create" else "branch_delete"))
    ∧ ev !! "branch" = Some (dict_get payload "ref" (PStr ""))
    ∧ ev !! "title"
      = Some (PStr (py_str repr_container
                      (default (PStr "someone") (nested payload "sender" "login"))
                    ++ (if created then " created " else " deleted ")
                    ++ py_str repr_container
                         (dict_get payload "ref_type" (PStr "branch"))
                    ++ " "
                    ++ py_str repr_container
                         (dict_get payload "ref" (PStr "unknown"))))
    ∧ ev !! "details"
      = Some (PDict {[ "ref_type" := dict_get payload "ref_type" (PStr "branch") ]})
    ∧ ev !! "files_changed" = Some (PList []).
Proof.
  intros Hs Hr. unfold parse_event, generate_title.
  destruct created; simpl;
    rewrite !(get_nested payload "sender"), (get_nested payload "repository")
      by done;
    rewrite !bind_ret;
    (eexists; split; [reflexivity|]);
    repeat split; by vm_compute.
Qed.

Lemma files_changed_sorted_distinct_witness :
  absent_or (is_list_of commit_shape) Examples.two_commits "commits" = true
  ∧ ∃ names,
      _extract_files_changed Examples.two_commits = Ret (PStr <$> names)
      ∧ StronglySorted str_le names
      ∧ NoDup names
      ∧ ∀ f, f ∈ names ↔ PStr f ∈ pushed_paths Examples.two_commits.
Proof.
  split; [by vm_compute|].
  apply (files_changed_sorted_distinct Examples.two_commits). by vm_compute.
Defined.

Lemma pull_request_merge_and_title_witness :
  payload_shape "pull_request" Examples.merged_pr = true
  ∧ ∃ ev,
      parse_event Examples.repr_unused "4f1c" "2024-03-01T12:00:00+00:00"
        "pull_request" Examples.merged_pr = Ret ev
      ∧ ev !! "event_type" = Some (PStr "merge")
      ∧ ev !! "title"
        = Some (PStr "bob merged pull request #42 into main").
Proof.
  split; [by vm_compute|].
  destruct (pull_request_merge_and_title Examples.repr_unused
              "4f1c" "2024-03-01T12:00:00+00:00" Examples.merged_pr)
    as (ev & Hev & _ & Hrest); [by vm_compute|].
  exists ev. split; [done|]. exact Hrest.
Defined.

Lemma branch_event_keeps_the_ref_witness :
  absent_or is_dict Examples.created_branch "sender" = true
  ∧ absent_or is_dict Examples.created_branch "repository" = true
  ∧ ∃ ev,
      parse_event Examples.repr_unused "4f1c" "2024-03-01T12:00:00+00:00"
        "create" Examples.created_branch = Ret ev
      ∧ ev !! "event_type" = Some (PStr "branch_create")
      ∧ ev !! "branch" = Some (PStr "hotfix/payment-bug")
      ∧ ev !! "title"
        = Some (PStr "carol created branch hotfix/payment-bug").
Proof.
  split; [by vm_compute|]. split; [by vm_compute|].
  destruct (branch_event_keeps_the_ref Examples.repr_unused
              "4f1c" "2024-03-01T12:00:00+00:00" Examples.created_branch true)
    as (ev & Hev & Hty & Hbr & Hti & _); [by vm_compute..|].
  exists ev. repeat split; try done.
Defined.

End NormalizerExtras.

(* ===================================================================== *)
(** * More on conflict detection *)
(* ===================================================================== *)

Module DetectorExtras.
Import Py Models Processor OrderFacts DetectorFacts DetectorClaims.

Section Scan.
Variable fromisoformat : string → option datetime.
Variable new_files : gset string.
Variable new_branch : string.
Variable new_ts : datetime.

Abbreviation scan' := (scan fromisoformat new_files new_branch new_ts).
Abbreviation skipped' := (skipped fromisoformat new_files new_branch new_ts).
Abbreviation mismatch := (tz_mismatch fromisoformat new_branch new_ts).
Abbreviation hit := (Processor.hit fromisoformat new_files new_branch new_ts).

(** A skipped event leaves the two accumulators as they are. *)
Lemma scan_skip ev rest cf cb :
  skipped' ev → scan' (ev :: rest) cf cb = scan' rest cf cb.
Proof.
  intros Hskip. cbn [scan].
  destruct (is_push ev) eqn:Hpush; simpl; [|done].
  destruct (String.eqb_spec (default "" (branch ev)) new_branch) as [|Hnb];
    simpl; [done|].
  destruct (String.eqb_spec (default "" (branch ev)) "") as [|Hne];
    simpl; [done|].
  destruct (parse_ts fromisoformat ev) as [ts|] eqn:Hts; [|done].
  destruct Hskip as [?|[?|[?|[?|(ts' & Hts' & Htz & Hwhy)]]]];
    try congruence.
  assert (ts' = ts) as -> by congruence. unfold dt_sub. rewrite <- Htz, Bool.eqb_reflx. simpl.
  destruct (Z.ltb_spec window (micros new_ts - micros ts)); [done|].
  destruct (decide _) as [|Hov]; [done|]. destruct Hwhy; [lia|done].
Qed.

Lemma scan_skip_anywhere ev l2 : ∀ l1 cf cb,
  skipped' ev → scan' (l1 ++ ev :: l2) cf cb = scan' (l1 ++ l2) cf cb.
Proof.
  induction l1 as [|x l1 IH]; intros cf cb Hskip; [by apply scan_skip|].
  cbn [scan app].
  destruct (negb (is_push x)); [by apply IH|].
  destruct (_ || _)%bool; [by apply IH|].
  destruct (parse_ts fromisoformat x); [|by apply IH].
  destruct (dt_sub _ _) as [diff|]; simpl; [|done].
  destruct (window <? diff); [by apply IH|].
  destruct (decide _); by apply IH.
Qed.

(** One turn of the loop either goes on with the rest, or raises on a
    timestamp of the other kind. *)
Lemma scan_step ev recent cf cb :
  (∃ cf' cb', scan' (ev :: recent) cf cb = scan' recent cf' cb'
              ∧ ¬ mismatch ev)
  ∨ (scan' (ev :: recent) cf cb = Raise TypeError ∧ mismatch ev).
Proof.
  cbn [scan].
  destruct (is_push ev) eqn:Hpush; simpl.
  2: { left. eexists _, _. split; [reflexivity|]. intros (Hp & _). congruence. }
  destruct (String.eqb_spec (default "" (branch ev)) new_branch) as [Heq|Hnb];
    simpl.
  { left. eexists _, _. split; [reflexivity|]. by intros (_ & ? & _). }
  destruct (String.eqb_spec (default "" (branch ev)) "") as [Heq|Hne]; simpl.
  { left. eexists _, _. split; [reflexivity|]. by intros (_ & _ & ? & _). }
  destruct (parse_ts fromisoformat ev) as [ts|] eqn:Hts.
  2: { left. eexists _, _. split; [reflexivity|].
       intros (_ & _ & _ & ts & ? & _). congruence. }
  unfold dt_sub.
  destruct (Bool.eqb (tz_aware new_ts) (tz_aware ts)) eqn:Htz; simpl.
  - apply Bool.eqb_prop in Htz.
    assert (Hok : ¬ mismatch ev).
    { intros (_ & _ & _ & ts' & Hts' & Hne'). congruence. }
    left. destruct (window <? _); [eexists _, _; split; [reflexivity|done]|].
    destruct (decide _); eexists _, _; (split; [reflexivity|done]).
  - right. split; [done|]. repeat split; try done. exists ts. split; [done|].
    intros Heq. rewrite Heq, Bool.eqb_reflx in Htz. done.
Qed.

(** The loop returns unless some event that passes the tests on kind and
    branch carries a timestamp of the other kind; it then raises a
    [TypeError]. *)
Lemma scan_cases recent : ∀ cf cb,
  (∃ r, scan' recent cf cb = Ret r ∧ ∀ ev, ev ∈ recent → ¬ mismatch ev)
  ∨ (scan' recent cf cb = Raise TypeError ∧ ∃ ev, ev ∈ recent ∧ mismatch ev).
Proof.
  induction recent as [|ev recent IH]; intros cf cb.
  { left. eexists. split; [done|]. intros ev Hin. by apply elem_of_nil in Hin. }
  destruct (scan_step ev recent cf cb) as [(cf' & cb' & -> & Hok)|[-> Hm]].
  - destruct (IH cf' cb') as [(r & Hr & Hall)|(Hr & ev' & Hin & Hm)].
    + left. exists r. split; [done|]. intros ev' [->|Hin]%elem_of_cons; auto.
    + right. split; [done|]. exists ev'. split; [by right|done].
  - right. split; [done|]. exists ev. split; [left|done].
Qed.
End Scan.

Section Detect.
Variable fromisoformat : string → option datetime.
Variable now : Z.

Abbreviation detect := (detect_conflicts fromisoformat now).
Abbreviation new_ts := (new_timestamp fromisoformat now).

Lemma files_of_empty (ev : GitEvent) :
  files_of ev = ∅ ↔ default [] (files_changed ev) = [].
Proof.
  unfold files_of. destruct (default [] (files_changed ev)) as [|f l].
  - done.
  - split; [|done]. intros Hempty. exfalso.
    apply (not_elem_of_empty (C:=gset string) f). rewrite <- Hempty.
    set_solver.
Qed.

(** [detect_conflicts] on a push with files, in terms of its loop. *)
Lemma detect_conflicts_loop new_event recent :
  is_push new_event = true → default [] (files_changed new_event) ≠ [] →
  detect new_event recent
  = match scan fromisoformat (files_of new_event)
            (default "" (branch new_event)) (new_ts new_event) recent [] ∅ with
    | Raise e => Raise e
    | Ret (cf, cb) =>
        match cf with
        | [] => Ret None
        | _ => Ret (Some (alert_of (default "" (branch new_event))
                            (list_to_set cf) cb))
        end
    end.
Proof.
  intros Hpush Hfiles. unfold detect_conflicts. rewrite Hpush. simpl.
  fold (files_of new_event).
  destruct (decide (files_of new_event = ∅)) as [Hempty|_].
  { by apply files_of_empty in Hempty. }
  destruct (scan _ _ _ _ _ _ _) as [[cf cb]|] eqn:Hscan; simpl; [|done].
  destruct cf as [|f0 cf]; [done|].
  apply scan_spec in Hscan as [HF HB].
  destruct (proj1 (HF f0) ltac:(left)) as [H|[b0 Hb0]];
    [by apply elem_of_nil in H|].
  assert (Hcb : b0 ∈ cb) by (apply HB; eauto).
  unfold alert_of.
  destruct (sorted_strs cb) as [|b1 bs] eqn:Ebs.
  { apply sorted_strs_nil in Ebs. set_solver. }
  destruct (sorted_strs (list_to_set (f0 :: cf))) as [|f1 fs] eqn:Efs.
  { apply sorted_strs_nil in Efs. set_solver. }
  done.
Qed.

(** X5.  An event of the recent window that the loop skips (not a push;
    on the branch of the new event or on no branch; without a timestamp
    that parses; older than ten minutes; sharing no file with the new
    event) can be dropped from the window, wherever it stands, without
    changing the result. *)
Theorem skipped_events_do_not_matter
    (new_event ev : GitEvent) (before after : list GitEvent) :
  skipped fromisoformat (files_of new_event) (default "" (branch new_event))
    (new_ts new_event) ev →
  detect new_event (before ++ ev :: after) = detect new_event (before ++ after).
Proof.
  intros Hskip. unfold detect_conflicts.
  destruct (negb (is_push new_event)); [done|].
  destruct (decide _); [done|].
  fold (files_of new_event). by rewrite scan_skip_anywhere.
Qed.

(** X6.  [detect_conflicts] raises in one case only: the new event is a
    push with files, and some push of the window on another, non-empty
    branch has a timestamp that parses to a datetime of the other kind than
    the new event's (one with a [tzinfo], the other without).  The
    exception is then a [TypeError]. *)
Theorem detection_raises_only_on_mixed_timestamps
    (new_event : GitEvent) (recent : list GitEvent) (e : exn) :
  detect new_event recent = Raise e
  ↔ e = TypeError
    ∧ is_push new_event = true
    ∧ default [] (files_changed new_event) ≠ []
    ∧ ∃ ev, ev ∈ recent
            ∧ tz_mismatch fromisoformat (default "" (branch new_event))
                (new_ts new_event) ev.
Proof.
  destruct (is_push new_event) eqn:Hpush; cycle 1.
  { unfold detect_conflicts. rewrite Hpush. simpl. split; [done|].
    by intros (_ & ? & _). }
  destruct (decide (default [] (files_changed new_event) = [])) as [Hnil|Hfiles].
  { unfold detect_conflicts. rewrite Hpush. simpl.
    destruct (decide _) as [|Hne]; [split; [done|by intros (_ & _ & ? & _)]|].
    exfalso. apply Hne. by apply files_of_empty. }
  rewrite detect_conflicts_loop by done.
  destruct (scan_cases fromisoformat (files_of new_event)
              (default "" (branch new_event)) (new_ts new_event) recent [] ∅)
    as [([cf cb] & -> & Hall)|(-> & Hm)].
  - split.
    + by destruct cf.
    + intros (_ & _ & _ & ev & Hin & Hm). by destruct (Hall ev Hin).
  - split; [by intros [= <-]|by intros (-> & _)].
Qed.

(** X7.  The result does not depend on the order of the recent events. *)
Theorem detection_ignores_the_order
    (new_event : GitEvent) (recent recent' : list GitEvent) :
  recent ≡ₚ recent' → detect new_event recent = detect new_event recent'.
Proof.
  intros Hperm.
  destruct (is_push new_event) eqn:Hpush; cycle 1.
  { unfold detect_conflicts. by rewrite Hpush. }
  destruct (decide (default [] (files_changed new_event) = [])) as [Hnil|Hfiles].
  { unfold detect_conflicts. rewrite Hpush. simpl.
    destruct (decide _) as [|Hne]; [done|].
    exfalso. apply Hne. by apply files_of_empty. }
  rewrite !detect_conflicts_loop by done.
  set (F := files_of new_event). set (nb := default "" (branch new_event)).
  set (nts := new_ts new_event).
  assert (Hhit : ∀ b f, hit fromisoformat F nb nts recent b f
                        ↔ hit fromisoformat F nb nts recent' b f).
  { intros b f. unfold hit. by setoid_rewrite Hperm. }
  destruct (scan_cases fromisoformat F nb nts recent [] ∅)
    as [([cf cb] & Hs & Hall)|(Hs & ev & Hin & Hm)];
  destruct (scan_cases fromisoformat F nb nts recent' [] ∅)
    as [([cf' cb'] & Hs' & Hall')|(Hs' & ev' & Hin' & Hm')];
  rewrite Hs, Hs'.
  - apply scan_spec in Hs as [HF HB]. apply scan_spec in Hs' as [HF' HB'].
    assert (Hfiles' : ∀ f, f ∈ cf ↔ f ∈ cf').
    { intros f. rewrite HF, HF'. by setoid_rewrite Hhit. }
    assert (Hcb : cb = cb').
    { apply set_eq. intros b. rewrite HB, HB'. by setoid_rewrite Hhit. }
    assert (Hset : (list_to_set cf : gset string) = list_to_set cf').
    { apply set_eq. intros f. by rewrite !elem_of_list_to_set. }
    destruct cf as [|f cf], cf' as [|f' cf']; [done| | |by rewrite Hset, Hcb].
    + exfalso. apply (elem_of_nil f'). apply Hfiles'. left.
    + exfalso. apply (elem_of_nil f). apply Hfiles'. left.
  - exfalso. apply (Hall ev'); [by rewrite Hperm|done].
  - exfalso. apply (Hall' ev); [by rewrite <- Hperm|done].
  - done.
Qed.

(** X8.  The message of an alert names the branch of the new event, the
    first of the branches in conflict and the first of the files in
    conflict (in sorted order), and counts the files that remain when there
    is more than one. *)
Theorem alert_message
    (new_event : GitEvent) (recent : list GitEvent) (alert : ConflictAlert) :
  detect new_event recent = Ret (Some alert) →
  ∃ b1 bs f1 fs,
    type alert = "conflict_risk"
    ∧ branches alert = default "" (branch new_event) :: b1 :: bs
    ∧ conflicting_files alert = f1 :: fs
    ∧ message alert
      = "Branch '" ++ default "" (branch new_event) ++ "' and '" ++ b1
        ++ "' both modified '" ++ f1 ++ "'"
        ++ match fs with
           | [] => ""
           | _ => " and " ++ pretty (length fs) ++ " more file(s)"
           end.
Proof.
  intros Hdet.
  assert (Hpush : is_push new_event = true).
  { apply detect_conflicts_inv in Hdet. by destruct Hdet. }
  assert (Hfiles : default [] (files_changed new_event) ≠ []).
  { intros Hnil. unfold detect_conflicts in Hdet. rewrite Hpush in Hdet.
    simpl in Hdet. destruct (decide _) as [|Hne]; [done|].
    apply Hne. by apply files_of_empty. }
  rewrite detect_conflicts_loop in Hdet by done.
  destruct (scan _ _ _ _ _ _ _) as [[cf cb]|] eqn:Hscan; [|done].
  destruct cf as [|f0 cf]; [done|].
  assert (Halert : alert = alert_of (default "" (branch new_event))
                             (list_to_set (f0 :: cf)) cb) by congruence.
  rewrite Halert. clear Hdet Halert.
  apply scan_spec in Hscan as [HF HB].
  destruct (proj1 (HF f0) ltac:(left)) as [H|[b0 Hb0]];
    [by apply elem_of_nil in H|].
  assert (Hcb : b0 ∈ cb) by (apply HB; eauto).
  unfold alert_of. cbv zeta.
  destruct (sorted_strs cb) as [|b1 bs] eqn:Ebs.
  { apply sorted_strs_nil in Ebs. set_solver. }
  destruct (sorted_strs (list_to_set (f0 :: cf))) as [|f1 fs] eqn:Efs.
  { apply sorted_strs_nil in Efs. set_solver. }
  exists b1, bs, f1, fs.
  cbn [type branches conflicting_files message hd length].
  split; [done|]. split; [done|]. split; [done|].
  destruct fs; [done|]. cbn [Nat.ltb Nat.leb length].
  by replace (S (S (length fs)) - 1)%nat with (S (length fs)) by lia.
Qed.
End Detect.

Lemma skipped_events_do_not_matter_witness :
  skipped fromisoformat_utc (files_of Examples.push_x)
    (default "" (branch Examples.push_x))
    (new_timestamp fromisoformat_utc 0 Examples.push_x) Examples.stale_y
  ∧ detect_conflicts fromisoformat_utc 0 Examples.push_x
      ([Examples.push_y] ++ Examples.stale_y :: [])
    = detect_conflicts fromisoformat_utc 0 Examples.push_x
        ([Examples.push_y] ++ []).
Proof.
  assert (Hskip : skipped fromisoformat_utc (files_of Examples.push_x)
            (default "" (branch Examples.push_x))
            (new_timestamp fromisoformat_utc 0 Examples.push_x)
            Examples.stale_y).
  { do 4 right. eexists. split; [by vm_compute|]. split; [by vm_compute|].
    left. by vm_compute. }
  split; [exact Hskip|].
  exact (skipped_events_do_not_matter fromisoformat_utc 0 Examples.push_x
           Examples.stale_y [Examples.push_y] [] Hskip).
Defined.

Lemma detection_ignores_the_order_witness :
  [Examples.push_y; Examples.stale_y] ≡ₚ [Examples.stale_y; Examples.push_y]
  ∧ detect_conflicts fromisoformat_utc 0 Examples.push_x
      [Examples.push_y; Examples.stale_y]
    = detect_conflicts fromisoformat_utc 0 Examples.push_x
        [Examples.stale_y; Examples.push_y].
Proof.
  split; [apply perm_swap|].
  apply (detection_ignores_the_order fromisoformat_utc 0 Examples.push_x).
  apply perm_swap.
Defined.

Lemma alert_message_witness :
  detect_conflicts fromisoformat_utc 0 Examples.push_y [Examples.push_x]
  = Ret (Some Examples.alert_y_after_x)
  ∧ ∃ b1 bs f1 fs,
      type Examples.alert_y_after_x = "conflict_risk"
      ∧ branches Examples.alert_y_after_x
        = default "" (branch Examples.push_y) :: b1 :: bs
      ∧ conflicting_files Examples.alert_y_after_x = f1 :: fs
      ∧ message Examples.alert_y_after_x
        = "Branch '" ++ default "" (branch Examples.push_y) ++ "' and '" ++ b1
          ++ "' both modified '" ++ f1 ++ "'"
          ++ match fs with
             | [] => ""
             | _ => " and " ++ pretty (length fs) ++ " more file(s)"
             end.
Proof.
  split; [by vm_compute|].
  apply (alert_message fromisoformat_utc 0 Examples.push_y [Examples.push_x]).
  by vm_compute.
Defined.

(** A push three minutes before the new event whose timestamp has no
    offset makes the detection raise. *)
Example naive_timestamp_raises :
  detect_conflicts fromisoformat_utc 0 Examples.push_x [Examples.naive_y]
  = Raise TypeError.
Proof. by vm_compute. Qed.

End DetectorExtras.

(* ===================================================================== *)
(** * More on connections *)
(* ===================================================================== *)

Module ManagerExtras.
Import Py Eff WebsocketManager ManagerFacts.

(** X9.  [disconnect] never raises and never sends; it removes the
    connection and no other, it changes nothing when the connection is not
    registered, and doing it twice is the same as doing it once. *)
Theorem disconnect_is_idempotent (ws : WebSocket) (w : World) :
  ∃ w',
    disconnect ws w = (Ret tt, w')
    ∧ wire w' = wire w
    ∧ (∀ x, x ∈ _active_connections w' ↔ x ∈ _active_connections w ∧ x ≠ ws)
    ∧ (ws ∉ _active_connections w → w' = w)
    ∧ disconnect ws w' = (Ret tt, w').
Proof.
  eexists. split; [reflexivity|]. simpl. split; [done|].
  split; [set_solver|]. split.
  - intros Hnot. destruct w as [active log]. simpl in *. f_equal. set_solver.
  - unfold disconnect, discard, modify. simpl. do 2 f_equal. set_solver.
Qed.

Section Network.
Variable handshake : WebSocket → bool.
Variable link : WebSocket → nat → bool.

(** X10.  When the handshake fails, [connect] raises, and the manager is
    as before: the connection is not registered and nothing is sent. *)
Theorem connect_refused_changes_nothing
    (ws : WebSocket) (recent_events : option (list (gmap string pyval)))
    (w : World) :
  handshake ws = false →
  connect handshake link ws recent_events w = (Raise (IOError "accept"), w).
Proof. intros Hno. unfold connect, bind, accept. by rewrite Hno. Qed.

(** The seed loop on a connection that takes every send. *)
Lemma seed_all_delivered (ws : WebSocket) (events : list (gmap string pyval)) :
  (∀ k, link ws k = true) →
  ∀ w, seed link ws events w
       = (Ret tt,
          extend w ((λ e, {| to := ws; payload := JsonFrame e;
                             delivered := true |}) <$> events)).
Proof.
  intros Hup. induction events as [|ev events IH]; intros w.
  { by rewrite extend_nil. }
  simpl. unfold bind at 1, try_except, bind at 1, send_json.
  rewrite send_unfold. unfold WebsocketManager.next_send, WebsocketManager.sent_to.
  unfold WebsocketManager.next_send. rewrite Hup. simpl.
  by rewrite IH, extend_extend.
Qed.

(** X11.  On a connection that accepts the handshake and takes every
    send, [connect] registers the connection and delivers the first ten of
    the recent events, in their order, and nothing else. *)
Theorem connect_seeds_the_first_ten
    (ws : WebSocket) (events : list (gmap string pyval)) (w : World) :
  handshake ws = true → (∀ k, link ws k = true) →
  connect handshake link ws (Some events) w
  = (Ret tt,
     {| _active_connections := {[ ws ]} ∪ _active_connections w;
        wire := (wire w
                 ++ ((λ e, {| to := ws; payload := JsonFrame e;
                              delivered := true |}) <$> take 10 events))%list |}).
Proof.
  intros Hok Hup. unfold connect, bind at 1, accept. rewrite Hok.
  unfold ret at 1, bind at 1, add, modify.
  destruct events as [|ev events].
  { simpl. unfold ret. by rewrite app_nil_r. }
  cbv beta iota.
  by rewrite (seed_all_delivered ws (take 10 (ev :: events)) Hup).
Qed.

End Network.

Section Sends.
Variable link : WebSocket → nat → bool.

Lemma attempts_on_sent (w : World) (f : frame) (ws : WebSocket)
    (conns : list WebSocket) :
  attempts_on ws (sent_to link w f <$> conns)
  = length (filter (λ x, x = ws) conns).
Proof.
  unfold attempts_on. induction conns as [|x conns IH]; [done|].
  rewrite fmap_cons, !filter_cons. simpl.
  destruct (decide (x = ws)); simpl; by rewrite IH.
Qed.

Lemma count_in_NoDup (ws : WebSocket) (conns : list WebSocket) :
  NoDup conns →
  length (filter (λ x, x = ws) conns) = (if decide (ws ∈ conns) then 1%nat else 0%nat).
Proof.
  induction 1 as [|x conns Hnotin Hnd IH]; [done|].
  rewrite filter_cons. destruct (decide (x = ws)) as [->|Hne].
  - simpl. rewrite IH. destruct (decide (ws ∈ conns)); [done|].
    by rewrite decide_True by left.
  - rewrite IH. destruct (decide (ws ∈ conns)) as [Hin|Hnin].
    + by rewrite decide_True by (by right).
    + rewrite decide_False; [done|]. intros [->|?]%elem_of_cons; done.
Qed.

(** The sends that one broadcast adds for a given connection. *)
Lemma broadcast_attempts (message : string) (w w' : World) (ws : WebSocket) :
  broadcast link message w = (Ret tt, w') →
  attempts_on ws (wire w')
  = (attempts_on ws (wire w)
     + (if decide (ws ∈ _active_connections w) then 1 else 0))%nat.
Proof.
  rewrite broadcast_spec. intros [= <-]. simpl.
  rewrite attempts_on_app, attempts_on_sent, count_in_NoDup
    by apply NoDup_elements.
  f_equal. destruct (decide (ws ∈ elements _)) as [Hin|Hnin];
    rewrite elem_of_elements in *; [by rewrite decide_True|by rewrite decide_False].
Qed.

(** X12.  A registered connection whose send fails during a broadcast
    gets exactly that one attempt: it is removed by that broadcast, and no
    later broadcast sends to it again. *)
Theorem failed_connection_gets_no_more_sends
    (message later : string) (w : World) (ws : WebSocket) :
  ws ∈ _active_connections w →
  link ws (attempts_on ws (wire w)) = false →
  ∃ w1 w2,
    broadcast link message w = (Ret tt, w1)
    ∧ ws ∉ _active_connections w1
    ∧ attempts_on ws (wire w1) = S (attempts_on ws (wire w))
    ∧ broadcast link later w1 = (Ret tt, w2)
    ∧ attempts_on ws (wire w2) = attempts_on ws (wire w1)
    ∧ ws ∉ _active_connections w2.
Proof.
  intros Hin Hfail.
  destruct (broadcast link message w) as [r1 w1] eqn:H1.
  destruct (broadcast link later w1) as [r2 w2] eqn:H2.
  pose proof H1 as H1'. pose proof H2 as H2'.
  rewrite broadcast_spec in H1'. rewrite broadcast_spec in H2'.
  injection H1' as <- Hw1. injection H2' as <- Hw2.
  assert (Hout : ws ∉ _active_connections w1).
  { rewrite <- Hw1. simpl. rewrite elem_of_difference, elem_of_list_to_set,
      list_elem_of_filter, elem_of_elements.
    unfold WebsocketManager.next_send. naive_solver. }
  exists w1, w2. split; [done|]. split; [done|].
  split.
  { rewrite (broadcast_attempts message w w1 ws H1), decide_True by done. lia. }
  split; [done|]. split.
  { rewrite (broadcast_attempts later w1 w2 ws H2), decide_False by done. lia. }
  rewrite <- Hw2. simpl. set_solver.
Qed.
End Sends.

Lemma connect_refused_changes_nothing_witness :
  (λ _ : WebSocket, false) 7%nat = false
  ∧ connect (λ _, false) Examples.link_down 7%nat
      (Some [Examples.seed_1]) Examples.fresh_manager
    = (Raise (IOError "accept"), Examples.fresh_manager).
Proof.
  split; [reflexivity|].
  apply (connect_refused_changes_nothing (λ _, false) Examples.link_down 7%nat
           (Some [Examples.seed_1]) Examples.fresh_manager).
  reflexivity.
Defined.

Lemma connect_seeds_the_first_ten_witness :
  Examples.handshake_ok 7%nat = true
  ∧ (∀ k, (λ (_ : WebSocket) (_ : nat), true) 7%nat k = true)
  ∧ connect Examples.handshake_ok (λ _ _, true) 7%nat
      (Some (replicate 15 Examples.seed_1)) Examples.fresh_manager
    = (Ret tt,
       {| _active_connections := {[ 7%nat ]} ∪ ∅;
          wire := ([] ++ ((λ e, {| to := 7%nat; payload := JsonFrame e;
                                   delivered := true |})
                          <$> take 10 (replicate 15 Examples.seed_1)))%list |}).
Proof.
  split; [reflexivity|]. split; [reflexivity|].
  apply (connect_seeds_the_first_ten Examples.handshake_ok (λ _ _, true) 7%nat
           (replicate 15 Examples.seed_1) Examples.fresh_manager);
    reflexivity.
Defined.

Lemma failed_connection_gets_no_more_sends_witness :
  let w := {| _active_connections := {[ 7%nat ]}; wire := [] |} in
  7%nat ∈ _active_connections w
  ∧ Examples.link_down 7%nat (attempts_on 7%nat (wire w)) = false
  ∧ ∃ w1 w2,
      broadcast Examples.link_down "{}" w = (Ret tt, w1)
      ∧ 7%nat ∉ _active_connections w1
      ∧ attempts_on 7%nat (wire w1) = S (attempts_on 7%nat (wire w))
      ∧ broadcast Examples.link_down "[]" w1 = (Ret tt, w2)
      ∧ attempts_on 7%nat (wire w2) = attempts_on 7%nat (wire w1)
      ∧ 7%nat ∉ _active_connections w2.
Proof.
  intros w.
  assert (Hin : 7%nat ∈ _active_connections w) by (simpl; set_solver).
  split; [exact Hin|]. split; [reflexivity|].
  exact (failed_connection_gets_no_more_sends Examples.link_down "{}" "[]" w
           7%nat Hin eq_refl).
Defined.

End ManagerExtras.

(* ===================================================================== *)
(** * More on the retry loop and the store *)
(* ===================================================================== *)

Module RetryExtras.
Import Py Eff Models RedisClient RetryFacts.

Section Policy.
Context {A : Type}.
Variable op : M World A.
Variable delay : Z.

(** What every attempt and every sleep preserve, the whole loop
    preserves. *)
Lemma policy_invariant (I : World → Prop) :
  (∀ w, I w → I (op w).2) → (∀ w, I w → I (pause delay w)) →
  ∀ n w, I w → I (policy op delay n w).2.
Proof.
  intros Hop Hpause. induction n as [|n IH]; intros w Hw; [done|].
  destruct n as [|n]; [by apply Hop|].
  change (policy op delay (S (S n)) w)
    with (match op w with
          | (Ret a, w') => (Ret a, w')
          | (Raise _, w') => policy op delay (S n) (pause delay w')
          end).
  specialize (Hop w Hw). destruct (op w) as [[a|exc] w']; [done|].
  apply IH, Hpause, Hop.
Qed.

Lemma retry_invariant (I : World → Prop) :
  (∀ w, I w → I (op w).2) → (∀ w, I w → I (pause delay w)) →
  ∀ n w, I w → I (_retry op n delay w).2.
Proof.
  intros Hop Hpause [|n] w Hw; [done|].
  rewrite retry_policy. by apply policy_invariant.
Qed.

(** A result that the loop returns is the result of one of the
    attempts. *)
Lemma policy_result (P : A → Prop) :
  (∀ w a w', op w = (Ret a, w') → P a) →
  ∀ n w a w', policy op delay n w = (Ret a, w') → P a.
Proof.
  intros Hop. induction n as [|n IH]; intros w a w' Hrun; [done|].
  destruct n as [|n]; [by eapply Hop|].
  change (policy op delay (S (S n)) w)
    with (match op w with
          | (Ret a, w') => (Ret a, w')
          | (Raise _, w') => policy op delay (S n) (pause delay w')
          end) in Hrun.
  destruct (op w) as [[a1|exc] w1] eqn:Hw.
  - injection Hrun as <- <-. by eapply Hop.
  - by eapply IH.
Qed.

Lemma retry_result (P : A → Prop) :
  (∀ w a w', op w = (Ret a, w') → P a) →
  ∀ n w a w', _retry op n delay w = (Ret a, w') → P a.
Proof.
  intros Hop [|n] w a w' Hrun; [done|].
  rewrite retry_policy in Hrun. by eapply policy_result.
Qed.

(** When every attempt raises, so does the loop. *)
Lemma policy_all_fail (I : World → Prop) :
  (∀ w, I w → I (op w).2 ∧ ∃ e, (op w).1 = Raise e) →
  (∀ w, I w → I (pause delay w)) →
  ∀ n w, I w → ∃ e, (policy op delay n w).1 = Raise e.
Proof.
  intros Hop Hpause. induction n as [|n IH]; intros w Hw; [by eexists|].
  destruct n as [|n]; [by apply Hop|].
  change (policy op delay (S (S n)) w)
    with (match op w with
          | (Ret a, w') => (Ret a, w')
          | (Raise _, w') => policy op delay (S n) (pause delay w')
          end).
  destruct (Hop w Hw) as [Hw' [e He]].
  destruct (op w) as [[a|exc] w']; [done|].
  apply IH, Hpause, Hw'.
Qed.

(** The sleeps of the loop, for an operation that does not sleep
    itself. *)
Lemma policy_sleeps :
  (∀ w, slept (op w).2 = slept w) →
  ∀ n w, ∃ k,
    slept (policy op delay n w).2 = (slept w ++ replicate k delay)%list
    ∧ (k ≤ n - 1)%nat
    ∧ (∀ e, (policy op delay n w).1 = Raise e → k = (n - 1)%nat).
Proof.
  intros Hop. induction n as [|n IH]; intros w.
  { exists 0%nat. simpl. by rewrite app_nil_r. }
  destruct n as [|n].
  { exists 0%nat. simpl. by rewrite Hop, app_nil_r. }
  change (policy op delay (S (S n)) w)
    with (match op w with
          | (Ret a, w') => (Ret a, w')
          | (Raise _, w') => policy op delay (S n) (pause delay w')
          end).
  specialize (Hop w). destruct (op w) as [[a|exc] w'].
  { exists 0%nat. simpl in *. rewrite Hop, app_nil_r.
    split; [done|]. split; [lia|done]. }
  destruct (IH (pause delay w')) as (k & Hk & Hle & Hraise).
  exists (S k). simpl in Hop. rewrite Hk. simpl. rewrite Hop.
  rewrite <- app_assoc. split; [done|]. split; [lia|].
  intros e He. rewrite (Hraise e He). lia.
Qed.
End Policy.

(** X13.  For an operation that does not sleep itself, [_retry] sleeps
    [delay] once after each failed attempt but the last and at no other
    time: at most [retries - 1] times in all, and exactly that often when
    it ends up raising.  With [retries = 0] the operation is not run and
    the [raise last_exc] of the last line raises a [TypeError]. *)
Theorem retry_sleeps_between_attempts {A} (op : M World A)
    (retries : nat) (delay : Z) (w : World) :
  (∀ w, slept (op w).2 = slept w) →
  (retries = 0%nat → _retry op retries delay w = (Raise TypeError, w))
  ∧ ∃ k,
      slept (_retry op retries delay w).2 = (slept w ++ replicate k delay)%list
      ∧ (k ≤ retries - 1)%nat
      ∧ (∀ e, (_retry op retries delay w).1 = Raise e → k = (retries - 1)%nat).
Proof.
  intros Hop. split; [by intros ->|].
  destruct retries as [|n].
  { exists 0%nat. simpl. by rewrite app_nil_r. }
  rewrite retry_policy. by apply policy_sleeps.
Qed.

Lemma round_trip_slept {A} (update : Redis → Redis) (reply : Redis → A)
    (w : World) :
  slept (round_trip update reply w).2 = slept w.
Proof. unfold round_trip. by destruct (faults w) as [|[[]|] ?]. Qed.

Lemma retry_sleeps_between_attempts_witness :
  (∀ w, slept (publish_do "e" w).2 = slept w)
  ∧ ∃ k,
      slept (_retry (publish_do "e") 3 1000000 Examples.flaky_store).2
      = (slept Examples.flaky_store ++ replicate k 1000000)%list
      ∧ (k ≤ 3 - 1)%nat.
Proof.
  assert (H : ∀ w, slept (publish_do "e" w).2 = slept w)
    by (intros w; apply round_trip_slept).
  split; [exact H|].
  destruct (retry_sleeps_between_attempts (publish_do "e") 3 1000000
              Examples.flaky_store H) as [_ (k & Hk & Hle & _)].
  exists k. split; [exact Hk|exact Hle].
Defined.

End RetryExtras.

Module StoreExtras.
Import Py Eff Models RedisClient RetryFacts RetryExtras StoreFacts.

Lemma pause_server (delay : Z) (w : World) : server (pause delay w) = server w.
Proof. done. Qed.

Lemma length_redis_range (l : list string) (n : Z) :
  1 ≤ n → (length (redis_range l 0 (n - 1)) ≤ Z.to_nat n)%nat.
Proof.
  intros Hn. rewrite (redis_range_prefix l n) by done.
  rewrite length_take. lia.
Qed.

(** One attempt of [publish_event]: the server is as before, or the list
    was trimmed. *)
Lemma publish_do_stored (payload : string) (w : World) :
  server (publish_do payload w).2 = server w
  ∨ stored (publish_do payload w).2 = take 100 (payload :: stored w).
Proof.
  unfold publish_do, execute, round_trip.
  destruct (faults w) as [|[[]|] fs]; [right|left; done|right|right];
    unfold stored; cbn [snd server with_server fold_left];
    rewrite list_at_ltrim, list_at_lpush, list_at_publish;
    by rewrite (redis_range_prefix _ 100).
Qed.

Section Store.
Variable json_dumps : gmap string pyval → string.
Variable json_loads : string → outcome pyval.
Variable fromisoformat : string → option datetime.

(** X14.  Whatever the faults of the connection, after [publish_event]
    the server is as it was or the list of the recent events holds at most
    100 entries; a list within the capacity stays within it. *)
Theorem publish_event_keeps_the_capacity
    (event : gmap string pyval) (w : World) :
  let w' := (publish_event json_dumps event w).2 in
  (server w' = server w ∨ (length (stored w') ≤ 100)%nat)
  ∧ ((length (stored w) ≤ 100)%nat → (length (stored w') ≤ 100)%nat).
Proof.
  intros w'.
  assert (H : server w' = server w ∨ (length (stored w') ≤ 100)%nat).
  { subst w'. unfold publish_event.
    apply (retry_invariant _ _
             (λ w', server w' = server w ∨ (length (stored w') ≤ 100)%nat)).
    - intros w1 Hw1.
      destruct (publish_do_stored (json_dumps event) w1) as [Hsame|Htrim].
      + rewrite Hsame. unfold stored in *. by rewrite Hsame.
      + right. rewrite Htrim, length_take. lia.
    - intros w1 Hw1. unfold stored in *. by rewrite pause_server.
    - by left. }
  split; [done|]. intros Hlen. destruct H as [Hsame|H]; [|done].
  unfold stored. by rewrite Hsame.
Qed.

Lemma lrange_server (key : string) (start stop : Z) (w : World) :
  server (lrange key start stop w).2 = server w.
Proof. unfold lrange, round_trip. by destruct (faults w) as [|[[]|] ?]. Qed.

Lemma recent_do_server (count : Z) (w : World) :
  server (recent_do json_loads count w).2 = server w.
Proof.
  unfold recent_do, bind, lift. pose proof (lrange_server RECENT_EVENTS_KEY 0 (count - 1) w) as H.
  by destruct (lrange _ _ _ w) as [[raw|e] w1].
Qed.

Lemma stats_do_server (w : World) :
  server (stats_do json_loads fromisoformat w).2 = server w.
Proof.
  unfold stats_do, bind, lift, gets, ret.
  pose proof (lrange_server RECENT_EVENTS_KEY 0 (MAX_RECENT_EVENTS - 1) w) as H.
  destruct (lrange _ _ _ w) as [[raw|e] w1]; [|done].
  destruct (mapM json_loads raw); [|done].
  by destruct (count_events _ _ _ _ _).
Qed.

(** X15.  Reading never writes: whatever the faults, the stored lists and
    the published messages are the same after [get_recent_events] and
    after [get_stats] as before. *)
Theorem reads_leave_the_server_alone (count : Z) (w : World) :
  server (get_recent_events json_loads count w).2 = server w
  ∧ server (get_stats json_loads fromisoformat w).2 = server w.
Proof.
  split.
  - unfold get_recent_events.
    apply (retry_invariant _ _ (λ w', server w' = server w)); [| |done].
    + intros w1 <-. apply recent_do_server.
    + by intros w1 <-.
  - unfold get_stats.
    apply (retry_invariant _ _ (λ w', server w' = server w)); [| |done].
    + intros w1 <-. apply stats_do_server.
    + by intros w1 <-.
Qed.

End Store.
End StoreExtras.
